(** * Eviction-request controller: reconciliation logic

    A shallow embedding of the reconciliation core of the eviction-request
    controller (packages [reconciler], [reconciler/interceptor],
    [reconciler/eviction] and [reconciler/status]) together with the
    properties of its interceptor hand-off state machine, of the terminal
    eviction step and of the status bookkeeping.

    The Go code works on one [*v1alpha1.EvictionRequest] that every callee
    mutates in place and on three remote collaborators (pod lister, eviction
    endpoint, status writer).  The embedding keeps that shape: the request
    lives in a [World] that a small state monad threads through the calls,
    the collaborators are the fields of a [Clients] record, and a nil
    dereference or an index out of range is the [Panicked] outcome. *)

From Stdlib Require Import ZArith List String Bool Lia Permutation Sorted.
Import ListNotations.

Local Open Scope string_scope.
Local Open Scope list_scope.
Local Open Scope Z_scope.

(** ** Machine integers and time *)

(** Go's [int32] and [int64] arithmetic wraps around. *)
Definition int32 (z : Z) : Z := (z + 2147483648) mod 4294967296 - 2147483648.
Definition int64 (z : Z) : Z :=
  (z + 9223372036854775808) mod 18446744073709551616 - 9223372036854775808.

Definition MaxInt32 : Z := 2147483647.
Definition MinInt32 : Z := -2147483648.
Definition in_int32 (z : Z) : Prop := MinInt32 <= z <= MaxInt32.

Module time.
  (** A [time.Time] is an instant in nanoseconds since the epoch, a
      [time.Duration] an [int64] count of nanoseconds. *)
Definition Second : Z := 1000000000.
Definition maxDuration : Z := 9223372036854775807.
Definition minDuration : Z := -9223372036854775808.

  (** [t.Sub(u)]: the difference, saturated to the range of [Duration]. *)
Definition Sub (t u : Z) : Z :=
    if maxDuration <? t - u then maxDuration
    else if t - u <? minDuration then minDuration
    else t - u.

  (** [time.Since(u)], read at clock value [now]. *)
Definition Since (now u : Z) : Z := Sub now u.
End time.

(** ** Errors *)

Inductive error : Type :=
| ErrRemote (msg : string)              (* an error returned by a client call *)
| ErrNew (msg : string)                 (* errors.New(msg) *)
| Errorf (prefix : string) (e : error). (* fmt.Errorf(prefix + ": %w", e) *)

(** ** API types *)

Module metav1.
Record ObjectMeta : Type := {
    Name : string;
    Namespace : string
  }.

  (** [ConditionStatus] is a string type in Go; the three constants. *)
Definition ConditionTrue : string := "True".
Definition ConditionFalse : string := "False".
Definition ConditionUnknown : string := "Unknown".

Record Condition : Type := {
    Type_ : string;
    Status : string;
    ObservedGeneration : Z;
    LastTransitionTime : Z;
    Reason : string;
    Message : string
  }.
End metav1.

Module corev1.
Record Pod : Type := {
    Name : string;
    Namespace : string;
    UID : string
  }.
End corev1.

Module v1alpha1.
Record LocalPodReference : Type := {
    Name : string;
    UID : string
  }.

Record EvictionTarget : Type := {
    PodRef : option LocalPodReference
  }.

Record Requester : Type := {
    RequesterName : string
  }.

Record Interceptor : Type := {
    InterceptorClass : string;
    Priority : Z;                        (* int32 *)
    Role : option string
  }.

Record EvictionRequestSpec : Type := {
    Type_ : string;
    Target : EvictionTarget;
    Requesters : list Requester;
    Interceptors : list Interceptor;
    HeartbeatDeadlineSeconds : option Z  (* *int32 *)
  }.

Record PodEvictionStatus : Type := {
    FailedAPIEvictionCounter : Z         (* int32 *)
  }.

Definition Allow : string := "Allow".
Definition Forbid : string := "Forbid".

Record EvictionRequestStatus : Type := {
    Conditions : list metav1.Condition;
    Message : string;
    ActiveInterceptorClass : option string;
    ActiveInterceptorCompleted : bool;
    HeartbeatTime : option Z;
    ExpectedInterceptorFinishTime : option Z;
    EvictionRequestCancellationPolicy : string;
    PodEvictionStatus_ : option PodEvictionStatus
  }.

Record EvictionRequest : Type := {
    ObjectMeta : metav1.ObjectMeta;
    Spec : EvictionRequestSpec;
    Status : EvictionRequestStatus
  }.

  (** Field assignments [evictionRequest.Status.f = v]. *)
Definition with_Status (s : EvictionRequestStatus) (er : EvictionRequest) :=
    {| ObjectMeta := ObjectMeta er; Spec := Spec er; Status := s |}.

Definition set_Conditions (v : list metav1.Condition) (s : EvictionRequestStatus) :=
    {| Conditions := v; Message := Message s;
       ActiveInterceptorClass := ActiveInterceptorClass s;
       ActiveInterceptorCompleted := ActiveInterceptorCompleted s;
       HeartbeatTime := HeartbeatTime s;
       ExpectedInterceptorFinishTime := ExpectedInterceptorFinishTime s;
       EvictionRequestCancellationPolicy := EvictionRequestCancellationPolicy s;
       PodEvictionStatus_ := PodEvictionStatus_ s |}.

Definition set_ActiveInterceptorClass (v : option string) (s : EvictionRequestStatus) :=
    {| Conditions := Conditions s; Message := Message s;
       ActiveInterceptorClass := v;
       ActiveInterceptorCompleted := ActiveInterceptorCompleted s;
       HeartbeatTime := HeartbeatTime s;
       ExpectedInterceptorFinishTime := ExpectedInterceptorFinishTime s;
       EvictionRequestCancellationPolicy := EvictionRequestCancellationPolicy s;
       PodEvictionStatus_ := PodEvictionStatus_ s |}.

Definition set_ActiveInterceptorCompleted (v : bool) (s : EvictionRequestStatus) :=
    {| Conditions := Conditions s; Message := Message s;
       ActiveInterceptorClass := ActiveInterceptorClass s;
       ActiveInterceptorCompleted := v;
       HeartbeatTime := HeartbeatTime s;
       ExpectedInterceptorFinishTime := ExpectedInterceptorFinishTime s;
       EvictionRequestCancellationPolicy := EvictionRequestCancellationPolicy s;
       PodEvictionStatus_ := PodEvictionStatus_ s |}.

Definition set_EvictionRequestCancellationPolicy (v : string) (s : EvictionRequestStatus) :=
    {| Conditions := Conditions s; Message := Message s;
       ActiveInterceptorClass := ActiveInterceptorClass s;
       ActiveInterceptorCompleted := ActiveInterceptorCompleted s;
       HeartbeatTime := HeartbeatTime s;
       ExpectedInterceptorFinishTime := ExpectedInterceptorFinishTime s;
       EvictionRequestCancellationPolicy := v;
       PodEvictionStatus_ := PodEvictionStatus_ s |}.

Definition set_PodEvictionStatus (v : option PodEvictionStatus) (s : EvictionRequestStatus) :=
    {| Conditions := Conditions s; Message := Message s;
       ActiveInterceptorClass := ActiveInterceptorClass s;
       ActiveInterceptorCompleted := ActiveInterceptorCompleted s;
       HeartbeatTime := HeartbeatTime s;
       ExpectedInterceptorFinishTime := ExpectedInterceptorFinishTime s;
       EvictionRequestCancellationPolicy := EvictionRequestCancellationPolicy s;
       PodEvictionStatus_ := v |}.
End v1alpha1.

Import v1alpha1.

Module constants.
Definition ConditionTypeReady : string := "Ready".
Definition ConditionTypeIntercepting : string := "Intercepting".
Definition ConditionTypeEvicted : string := "Evicted".
Definition ReasonPodNotFound : string := "PodNotFound".
Definition ReasonInterceptorsReady : string := "InterceptorsReady".
Definition ReasonInterceptorsNotReady : string := "InterceptorsNotReady".
Definition ReasonEvictionSucceeded : string := "EvictionSucceeded".
Definition ReasonEvictionFailed : string := "EvictionFailed".
End constants.

(** ** Collaborators and the world *)

(** What [PodLister.Pods(ns).Get(name)] answers. *)
Inductive PodGet : Type :=
| PodFound (pod : corev1.Pod)
| PodNotFound                 (* an error for which apierrors.IsNotFound holds *)
| PodGetFailed (e : error).

(** The remote collaborators a component holds, and the clock.  One value of
    [Clients] gives their answers during one invocation. *)
Record Clients : Type := {
  PodLister : string -> string -> PodGet;            (* namespace, name *)
  EvictV1 : string -> string -> option error;        (* namespace, name *)
  UpdateStatus : EvictionRequest -> option error;
  Now : Z
}.

(** The request object all callees share through one pointer, and the
    observable calls made so far. *)
Record World : Type := {
  evictionRequest : EvictionRequest;
  statusWrites : list EvictionRequest;       (* arguments of UpdateStatus, oldest first *)
  evictCalls : list (string * string);       (* arguments of EvictV1, oldest first *)
  logged : list string                       (* logger messages, oldest first *)
}.

Inductive Outcome (A : Type) : Type :=
| Returned (a : A) (w : World)
| Panicked (w : World).
Arguments Returned {A} a w.
Arguments Panicked {A} w.

Definition Go (A : Type) : Type := World -> Outcome A.

Definition ret {A} (a : A) : Go A := fun w => Returned a w.

Definition bind {A B} (m : Go A) (k : A -> Go B) : Go B :=
  fun w => match m w with
           | Returned a w' => k a w'
           | Panicked w' => Panicked w'
           end.

Definition panic {A} : Go A := fun w => Panicked w.

Declare Scope go_scope.
Delimit Scope go_scope with go.
Notation "x <- m ;; k" := (bind m (fun x => k))
  (at level 61, m at next level, right associativity) : go_scope.
Notation "m ;;; k" := (bind m (fun _ => k))
  (at level 61, right associativity) : go_scope.
Local Open Scope go_scope.

Definition getRequest : Go EvictionRequest := fun w => Returned (evictionRequest w) w.

Definition modifyStatus (f : EvictionRequestStatus -> EvictionRequestStatus) : Go unit :=
  fun w => Returned tt
    {| evictionRequest := with_Status (f (Status (evictionRequest w))) (evictionRequest w);
       statusWrites := statusWrites w; evictCalls := evictCalls w; logged := logged w |}.

Definition log (msg : string) : Go unit :=
  fun w => Returned tt
    {| evictionRequest := evictionRequest w; statusWrites := statusWrites w;
       evictCalls := evictCalls w; logged := logged w ++ [msg] |}.

(** [EvictionRequests(ns).UpdateStatus(ctx, evictionRequest, ...)]. *)
Definition callUpdateStatus (c : Clients) : Go (option error) :=
  fun w => Returned (UpdateStatus c (evictionRequest w))
    {| evictionRequest := evictionRequest w;
       statusWrites := statusWrites w ++ [evictionRequest w];
       evictCalls := evictCalls w; logged := logged w |}.

(** [KubeClient.CoreV1().Pods(ns).EvictV1(ctx, eviction)]. *)
Definition callEvictV1 (c : Clients) (ns name : string) : Go (option error) :=
  fun w => Returned (EvictV1 c ns name)
    {| evictionRequest := evictionRequest w; statusWrites := statusWrites w;
       evictCalls := evictCalls w ++ [(ns, name)]; logged := logged w |}.

(** [if s.EvictionRequestCancellationPolicy == "" { ... = Allow }]. *)
Definition defaultCancellationPolicy (s : EvictionRequestStatus) : EvictionRequestStatus :=
  if String.eqb (EvictionRequestCancellationPolicy s) ""
  then set_EvictionRequestCancellationPolicy Allow s
  else s.

(** ** Package status *)

Module status.

  (** The loop of [UpsertCondition]: the first condition of the given type is
      overwritten in place and the loop breaks; [None] when none is found. *)
Fixpoint replaceFirst (conditions : list metav1.Condition)
      (condition : metav1.Condition) : option (list metav1.Condition) :=
    match conditions with
    | [] => None
    | existing :: rest =>
        if String.eqb (metav1.Type_ existing) (metav1.Type_ condition) then
          let ltt :=
            if negb (String.eqb (metav1.Status existing) (metav1.Status condition))
            then metav1.LastTransitionTime condition
            else metav1.LastTransitionTime existing in
          Some ({| metav1.Type_ := metav1.Type_ condition;
                   metav1.Status := metav1.Status condition;
                   metav1.ObservedGeneration := metav1.ObservedGeneration condition;
                   metav1.LastTransitionTime := ltt;
                   metav1.Reason := metav1.Reason condition;
                   metav1.Message := metav1.Message condition |} :: rest)
        else option_map (cons existing) (replaceFirst rest condition)
    end.

Definition upsert (conditions : list metav1.Condition)
      (condition : metav1.Condition) : list metav1.Condition :=
    match replaceFirst conditions condition with
    | Some conditions' => conditions'
    | None => conditions ++ [condition]
    end.

Definition UpsertCondition (s : Clients)
      (conditionType status reason message : string) : Go (option error) :=
    let now := Now s in
    let condition :=
      {| metav1.Type_ := conditionType; metav1.Status := status;
         metav1.ObservedGeneration := 0; metav1.LastTransitionTime := now;
         metav1.Reason := reason; metav1.Message := message |} in
    modifyStatus (fun st => set_Conditions (upsert (Conditions st) condition) st) ;;;
    modifyStatus defaultCancellationPolicy ;;;
    err <- callUpdateStatus s ;;
    match err with
    | Some e => log "Failed to update eviction request status" ;;; ret (Some e)
    | None => ret None
    end.

Definition incrementCounter (st : EvictionRequestStatus) : EvictionRequestStatus :=
    let pes := match PodEvictionStatus_ st with
               | None => {| FailedAPIEvictionCounter := 0 |}
               | Some p => p
               end in
    set_PodEvictionStatus
      (Some {| FailedAPIEvictionCounter := int32 (FailedAPIEvictionCounter pes + 1) |}) st.

Definition IncrementFailedEvictionCounter (s : Clients) : Go (option error) :=
    modifyStatus incrementCounter ;;;
    modifyStatus defaultCancellationPolicy ;;;
    err <- UpsertCondition s constants.ConditionTypeEvicted metav1.ConditionFalse
             constants.ReasonEvictionFailed "Failed to evict pod" ;;
    match err with
    | Some e => log "Failed to increment failed eviction counter" ;;; ret (Some e)
    | None => ret None
    end.

End status.

(** ** Package eviction *)

Module eviction.

Definition Perform (e : Clients) : Go (option error) :=
    evictionRequest <- getRequest ;;
    match PodRef (Target (Spec evictionRequest)) with
    | None =>
        log "FailedPrecondition: EvictionRequest.Spec.Target.PodRef cannot be nil" ;;;
        status.UpsertCondition e constants.ConditionTypeReady metav1.ConditionFalse
          constants.ReasonPodNotFound
          "EvictionRequest.Spec.Target.PodRef cannot be nil" ;;;
        ret (Some (ErrNew "pod reference cannot be nil"))
    | Some podRef =>
        match PodLister e (metav1.Namespace (ObjectMeta evictionRequest)) (Name podRef) with
        | PodNotFound =>
            log "Pod in pod reference not found, skipping..." ;;; ret None
        | PodGetFailed err =>
            log "Failed to get pod" ;;; ret (Some (Errorf "failed to get pod" err))
        | PodFound pod =>
            err <- callEvictV1 e (corev1.Namespace pod) (corev1.Name pod) ;;
            match err with
            | Some err =>
                log "Failed to evict pod" ;;;
                status.IncrementFailedEvictionCounter e ;;;
                ret (Some (Errorf "failed to evict pod" err))
            | None =>
                log "Pod evicted successfully" ;;;
                status.UpsertCondition e constants.ConditionTypeEvicted metav1.ConditionTrue
                  constants.ReasonEvictionSucceeded "Pod evicted successfully" ;;;
                ret None
            end
        end
    end.

End eviction.

(** ** The library call [sort.Slice] *)

Module sort.

(** One pass of the inner loop of Go's insertion sort: the new element moves
    left while [less] puts it before its left neighbour.  [left] is the
    already sorted prefix, nearest neighbour first. *)
Fixpoint insertLeft {A} (less : A -> A -> bool) (x : A) (left : list A) : list A :=
  match left with
  | [] => [x]
  | y :: left' => if less x y then y :: insertLeft less x left' else x :: left
  end.

(** [sort.Slice(s, less)] as the insertion sort the library runs on short
    slices.  On longer slices the library switches to a pattern-defeating
    quicksort that is not stable; [Slice_unique] below shows that for the
    comparator of this program and pairwise distinct priorities every
    sorting procedure returns this same slice. *)
Definition Slice {A} (less : A -> A -> bool) (s : list A) : list A :=
  rev (fold_left (fun left x => insertLeft less x left) s []).

End sort.

(** ** Package interceptor *)

Module interceptor.

Definition sortInterceptorsByPriority (interceptors : list Interceptor) : list Interceptor :=
  sort.Slice (fun a b => Priority b <? Priority a) interceptors.

Definition updateEvictionRequestStatus (i : Clients) : Go (option error) :=
  err <- callUpdateStatus i ;;
  match err with
  | Some e => log "Failed to update eviction request status" ;;; ret (Some e)
  | None => ret None
  end.

Definition selectInitialInterceptor (i : Clients) (interceptors : list Interceptor)
    : Go (option error) :=
  match interceptors with
  | [] => panic                                    (* interceptors[0] out of range *)
  | highestPriorityInterceptor :: _ =>
      modifyStatus (set_ActiveInterceptorClass
                      (Some (InterceptorClass highestPriorityInterceptor))) ;;;
      updateEvictionRequestStatus i
  end.

(** The index of the first interceptor of the given class, or -1. *)
Fixpoint findInterceptorIndexFrom (idx : Z) (interceptors : list Interceptor)
    (interceptorClass : string) : Z :=
  match interceptors with
  | [] => -1
  | interceptor :: rest =>
      if String.eqb (InterceptorClass interceptor) interceptorClass then idx
      else findInterceptorIndexFrom (idx + 1) rest interceptorClass
  end.

Definition findInterceptorIndex (interceptors : list Interceptor)
    (interceptorClass : string) : Z :=
  findInterceptorIndexFrom 0 interceptors interceptorClass.

Definition selectNextInterceptor (i : Clients) (interceptors : list Interceptor)
    (currentIndex : Z) : Go (option error) :=
  if (currentIndex + 1 <? 0) then panic else
  match nth_error interceptors (Z.to_nat (currentIndex + 1)) with
  | None => panic                                  (* index out of range *)
  | Some nextInterceptor =>
      modifyStatus (set_ActiveInterceptorClass
                      (Some (InterceptorClass nextInterceptor))) ;;;
      updateEvictionRequestStatus i
  end.

Definition handleCompletedInterceptor (i : Clients) (interceptors : list Interceptor)
    : Go (option error) :=
  evictionRequest <- getRequest ;;
  match ActiveInterceptorClass (Status evictionRequest) with
  | None => panic                                  (* nil dereference *)
  | Some activeClass =>
      let currentIndex := findInterceptorIndex interceptors activeClass in
      if (0 <=? currentIndex) && (currentIndex + 1 <? Z.of_nat (List.length interceptors))
      then selectNextInterceptor i interceptors currentIndex
      else
        log "All interceptors completed, proceeding with direct eviction" ;;;
        eviction.Perform i
  end.

Definition markInterceptorAsCompleted (i : Clients) (deadline : Z) : Go (option error) :=
  evictionRequest <- getRequest ;;
  match ActiveInterceptorClass (Status evictionRequest) with
  | None => panic                                  (* nil dereference in the log call *)
  | Some _ =>
      log "Interceptor deadline exceeded, marking as completed" ;;;
      modifyStatus (set_ActiveInterceptorCompleted true) ;;;
      updateEvictionRequestStatus i
  end.

(** The test of [checkInterceptorTimeout]: both pointers set and
    [time.Since(HeartbeatTime) > deadline]; the deadline when it holds. *)
Definition exceededDeadline (now : Z) (evictionRequest : EvictionRequest) : option Z :=
  match HeartbeatDeadlineSeconds (Spec evictionRequest),
        HeartbeatTime (Status evictionRequest) with
  | Some seconds, Some heartbeatTime =>
      let deadline := int64 (seconds * time.Second) in
      if deadline <? time.Since now heartbeatTime then Some deadline else None
  | _, _ => None
  end.

Definition checkInterceptorTimeout (i : Clients) : Go (option error) :=
  evictionRequest <- getRequest ;;
  match exceededDeadline (Now i) evictionRequest with
  | Some deadline => markInterceptorAsCompleted i deadline
  | None =>
      match ActiveInterceptorClass (Status evictionRequest) with
      | None => panic                              (* nil dereference in the log call *)
      | Some _ => log "Waiting for interceptor progress" ;;; ret None
      end
  end.

(** [ActiveInterceptorClass == nil || *ActiveInterceptorClass == ""]. *)
Definition noActiveInterceptor (s : EvictionRequestStatus) : bool :=
  match ActiveInterceptorClass s with
  | None => true
  | Some c => String.eqb c ""
  end.

Definition Handle (i : Clients) : Go (option error) :=
  evictionRequest <- getRequest ;;
  let interceptors := sortInterceptorsByPriority (Interceptors (Spec evictionRequest)) in
  if noActiveInterceptor (Status evictionRequest) then
    selectInitialInterceptor i interceptors
  else if ActiveInterceptorCompleted (Status evictionRequest) then
    handleCompletedInterceptor i interceptors
  else
    checkInterceptorTimeout i.

End interceptor.

(** ** Package reconciler *)

Module reconciler.

Definition ReconcileEvictionRequest (r : Clients) : Go (option error) :=
  evictionRequest <- getRequest ;;
  match PodRef (Target (Spec evictionRequest)) with
  | None => panic                                  (* PodRef.Name on a nil pointer *)
  | Some podRef =>
      match PodLister r (metav1.Namespace (ObjectMeta evictionRequest)) (Name podRef) with
      | PodNotFound =>
          log "Pod in pod reference not found, skipping..." ;;; ret None
      | PodGetFailed err =>
          log "Failed to get pod" ;;; ret (Some err)
      | PodFound pod =>
          if negb (String.eqb (corev1.UID pod) (UID podRef)) then
            log "Pod UID mismatch" ;;; ret None
          else
            err <- (if String.eqb (EvictionRequestCancellationPolicy (Status evictionRequest)) ""
                    then
                      modifyStatus (set_EvictionRequestCancellationPolicy Allow) ;;;
                      err <- callUpdateStatus r ;;
                      match err with
                      | Some e =>
                          log "Failed to update eviction request status" ;;; ret (Some e)
                      | None => ret None
                      end
                    else ret None) ;;
            match err with
            | Some e => ret (Some e)
            | None =>
                if 0 <? Z.of_nat (List.length (Interceptors (Spec evictionRequest)))
                then interceptor.Handle r
                else eviction.Perform r
            end
      end
  end.

End reconciler.

(** ** Package worker *)

Module worker.

(** What travels as [interface{}] through the informer and the work queue:
    an [*v1alpha1.EvictionRequest] (not nil: the informer hands out the
    objects of its store) or a value of some other type, kept as it
    prints. *)
Inductive Object : Type :=
| EvictionRequestObject (evictionRequest : EvictionRequest)
| OtherObject (printed : string).

(** The calls the pool makes on its rate-limiting work queue. *)
Inductive QueueCall : Type :=
| Add (obj : Object)
| Done (obj : Object)
| Forget (obj : Object)
| AddRateLimited (obj : Object).

(** The errors the pool hands to [runtime.HandleError]. *)
Inductive Handled : Type :=
| NotAnEvictionRequest (printed : string)   (* "expected *v1alpha1.EvictionRequest but got %T" *)
| NoKeyForObject (e : error)                (* "error obtaining key for object %v: %w" *)
| NotAnEvictionRequestInQueue (printed : string)
                                            (* "expected ... in workqueue but got %#v" *)
| NoKeyForEvictionRequest (e : error)       (* "error obtaining key for eviction request: %w" *)
| SyncFailed (key : string) (e : error).    (* "error syncing '%s': %w, requeuing" *)

(** The pool: the reconciler it calls, given by the answers of the
    reconciler's collaborators, and the library function that names an
    object. *)
Record Pool : Type := {
  reconciler : Clients;
  MetaNamespaceKeyFunc : Object -> string + error
}.

(** What the process has done so far: the calls on the queue, the errors
    handed to the error sink, and the calls and log lines of the
    reconciliations. *)
Record Process : Type := {
  queueCalls : list QueueCall;
  handledErrors : list Handled;
  written : list EvictionRequest;
  evicted : list (string * string);
  journal : list string
}.

Definition callQueue (c : QueueCall) (s : Process) : Process :=
  {| queueCalls := queueCalls s ++ [c]; handledErrors := handledErrors s;
     written := written s; evicted := evicted s; journal := journal s |}.

Definition HandleError (h : Handled) (s : Process) : Process :=
  {| queueCalls := queueCalls s; handledErrors := handledErrors s ++ [h];
     written := written s; evicted := evicted s; journal := journal s |}.

Definition logLine (msg : string) (s : Process) : Process :=
  {| queueCalls := queueCalls s; handledErrors := handledErrors s;
     written := written s; evicted := evicted s; journal := journal s ++ [msg] |}.

(** The world a reconciliation of the queued request starts in, and the
    process it leaves. *)
Definition enter (s : Process) (queued : EvictionRequest) : World :=
  {| evictionRequest := queued; statusWrites := written s;
     evictCalls := evicted s; logged := journal s |}.

Definition leave (s : Process) (w : World) : Process :=
  {| queueCalls := queueCalls s; handledErrors := handledErrors s;
     written := statusWrites w; evicted := evictCalls w; journal := logged w |}.

Inductive Exit (A : Type) : Type :=
| Finished (a : A) (s : Process)
| Crashed (s : Process).
Arguments Finished {A} a s.
Arguments Crashed {A} s.

Definition Enqueue (p : Pool) (obj : Object) (s : Process) : Process :=
  match obj with
  | OtherObject printed => HandleError (NotAnEvictionRequest printed) s
  | EvictionRequestObject evictionRequest =>
      match MetaNamespaceKeyFunc p obj with
      | inr err => HandleError (NoKeyForObject err) s
      | inl key =>
          (* the queue receives evictionRequest.DeepCopy() *)
          callQueue (Add (EvictionRequestObject evictionRequest))
            (logLine "Enqueuing eviction request" s)
      end
  end.

Definition syncHandler (p : Pool) : Go (option error) :=
  log "Processing eviction request" ;;;
  err <- reconciler.ReconcileEvictionRequest (reconciler p) ;;
  match err with
  | Some err => log "Failed to reconcile eviction request" ;;; ret (Some err)
  | None => log "Successfully synced eviction request" ;;; ret None
  end.

(** [got] is what [workqueue.Get()] answered: an item, or [None] once the
    queue is shut down.  The item is a pointer: the calls made on the queue
    after the reconciliation see the request as the reconciliation left it.
    [Done] is deferred, so it also runs when the reconciler panics. *)
Definition processNextWorkItem (p : Pool) (got : option Object) (s : Process) : Exit bool :=
  match got with
  | None => Finished false s
  | Some obj =>
      match obj with
      | OtherObject printed =>
          Finished true
            (callQueue (Done obj)
               (HandleError (NotAnEvictionRequestInQueue printed)
                  (callQueue (Forget obj) s)))
      | EvictionRequestObject queued =>
          match MetaNamespaceKeyFunc p obj with
          | inr err =>
              Finished true
                (callQueue (Done obj)
                   (HandleError (NoKeyForEvictionRequest err)
                      (callQueue (Forget obj) s)))
          | inl key =>
              match syncHandler p (enter s queued) with
              | Panicked w =>
                  Crashed
                    (callQueue (Done (EvictionRequestObject (evictionRequest w)))
                       (leave s w))
              | Returned (Some err) w =>
                  let obj' := EvictionRequestObject (evictionRequest w) in
                  Finished true
                    (HandleError (SyncFailed key err)
                       (callQueue (Done obj')
                          (callQueue (AddRateLimited obj') (leave s w))))
              | Returned None w =>
                  let obj' := EvictionRequestObject (evictionRequest w) in
                  Finished true
                    (callQueue (Done obj')
                       (logLine "Successfully synced"
                          (callQueue (Forget obj') (leave s w))))
              end
          end
      end
  end.

(** [for p.processNextWorkItem(ctx, workerID) {}], run against the answers
    the queue gives one after the other, each with the collaborators'
    answers of that moment.  The loop ends at the shutdown answer or with a
    panic; a script that runs out stands for a queue that answers no more. *)
Fixpoint runWorker (script : list (Pool * option Object)) (s : Process) : Exit unit :=
  match script with
  | [] => Finished tt s
  | (p, got) :: rest =>
      match processNextWorkItem p got s with
      | Finished true s' => runWorker rest s'
      | Finished false s' => Finished tt s'
      | Crashed s' => Crashed s'
      end
  end.

End worker.

(** ** Package controller *)

Module controller.

(** The stop channel: not made yet, open, or closed. *)
Inductive Chan : Type := NilChan | OpenChan | ClosedChan.

(** [close(ch)]: panics on a nil or closed channel. *)
Definition close (ch : Chan) : option Chan :=
  match ch with
  | OpenChan => Some ClosedChan
  | _ => None
  end.

(** What the controller sets going. *)
Inductive Launch : Type :=
| HandlersRegistered
| InformersStarted (factory : string)
| WorkerStarted.

Record Controller : Type := {
  stopCh : Chan;
  launches : list Launch;
  notes : list string                 (* logger messages, oldest first *)
}.

Definition note (msg : string) (c : Controller) : Controller :=
  {| stopCh := stopCh c; launches := launches c; notes := notes c ++ [msg] |}.

Definition launch (l : Launch) (c : Controller) : Controller :=
  {| stopCh := stopCh c; launches := launches c ++ [l]; notes := notes c |}.

Definition setStopCh (ch : Chan) (c : Controller) : Controller :=
  {| stopCh := ch; launches := launches c; notes := notes c |}.

(** [syncMap] lists the entries of the Go map in the order the [range]
    statement happens to visit them. *)
Definition verifyCacheSync (factoryName : string) (syncMap : list (string * bool))
    (c : Controller) : bool * Controller :=
  fold_left
    (fun (acc : bool * Controller) (entry : string * bool) =>
       let (allSynced, c) := acc in
       if negb (snd entry)
       then (false, note "Failed to sync informer cache" c)
       else (allSynced, c))
    syncMap (true, c).

(** [kubeSyncMap] and [evictionRequestSyncMap] are what the two factories'
    [WaitForCacheSync] answer. *)
Definition startInformers (kubeSyncMap evictionRequestSyncMap : list (string * bool))
    (c : Controller) : bool * Controller :=
  let c := setStopCh OpenChan c in
  let allSynced := true in
  let c := launch (InformersStarted "kube") c in
  let (ok, c) := verifyCacheSync "kube" kubeSyncMap c in
  let (allSynced, c) :=
    if negb ok
    then (false,
          note "Some kube informers failed to sync cache - controller may operate with stale data" c)
    else (allSynced, c) in
  let c := launch (InformersStarted "eviction-request") c in
  let (ok, c) := verifyCacheSync "eviction-request" evictionRequestSyncMap c in
  let (allSynced, c) :=
    if negb ok
    then (false,
          note "Some eviction-request informers failed to sync cache - controller may operate with stale data" c)
    else (allSynced, c) in
  if allSynced
  then (true, note "All informers started and synced" c)
  else (false, c).

Definition setupEventHandlers (c : Controller) : Controller :=
  launch HandlersRegistered c.

Definition onStartedLeading (kubeSyncMap evictionRequestSyncMap : list (string * bool))
    (c : Controller) : Controller :=
  let c := note "Started leading, setting up informers and workers" c in
  let c := setupEventHandlers c in
  let (allSynced, c) := startInformers kubeSyncMap evictionRequestSyncMap c in
  let c :=
    if negb allSynced
    then note "Some informers failed to sync - controller may operate with incomplete or stale data" c
    else c in
  launch WorkerStarted c.

(** [None] stands for the panic of closing a channel that is nil or closed. *)
Definition onStoppedLeading (c : Controller) : option Controller :=
  let c := note "Stopped leading, shutting down informers" c in
  match stopCh c with
  | NilChan => Some c
  | ClosedChan =>
      (* the receive succeeds at once on a closed channel *)
      Some (note "Stop channel already closed" c)
  | OpenChan =>
      (* nothing is ever sent: the receive is not ready, the default runs *)
      match close (stopCh c) with
      | Some ch => Some (note "Stop channel closed" (setStopCh ch c))
      | None => None
      end
  end.

Definition handleEvictionRequestAdd (p : worker.Pool) (obj : worker.Object)
    (s : worker.Process) : worker.Process :=
  match obj with
  | worker.OtherObject _ =>
      worker.logLine "Received non-EvictionRequest object in add handler" s
  | worker.EvictionRequestObject evictionRequest =>
      worker.Enqueue p (worker.EvictionRequestObject evictionRequest)
        (worker.logLine "EvictionRequest added" s)
  end.

Definition handleEvictionRequestUpdate (p : worker.Pool) (oldObj newObj : worker.Object)
    (s : worker.Process) : worker.Process :=
  match oldObj with
  | worker.OtherObject _ =>
      worker.logLine "Received non-EvictionRequest object in update handler (old)" s
  | worker.EvictionRequestObject oldEvictionRequest =>
      match newObj with
      | worker.OtherObject _ =>
          worker.logLine "Received non-EvictionRequest object in update handler (new)" s
      | worker.EvictionRequestObject newEvictionRequest =>
          worker.Enqueue p (worker.EvictionRequestObject newEvictionRequest)
            (worker.logLine "EvictionRequest updated" s)
      end
  end.

End controller.

(** ** Scenarios *)

Module Scenario.

Definition pod : corev1.Pod :=
  {| corev1.Name := "web-0"; corev1.Namespace := "default"; corev1.UID := "uid-1" |}.

(** The pod lister of a namespace that holds this pod alone. *)
Definition lister : string -> string -> PodGet :=
  fun _ name => if String.eqb name "web-0" then PodFound pod else PodNotFound.

Definition interceptorA : Interceptor :=
  {| InterceptorClass := "a"; Priority := 10; Role := None |}.
Definition interceptorB : Interceptor :=
  {| InterceptorClass := "b"; Priority := 20; Role := None |}.
Definition interceptorC : Interceptor :=
  {| InterceptorClass := "c"; Priority := 5; Role := None |}.

Definition spec (interceptors : list Interceptor) : EvictionRequestSpec :=
  {| Type_ := "Soft";
     Target := {| PodRef := Some {| Name := "web-0"; UID := "uid-1" |} |};
     Requesters := [ {| RequesterName := "drain.example.com" |} ];
     Interceptors := interceptors;
     HeartbeatDeadlineSeconds := Some 1800 |}.

Definition emptyStatus : EvictionRequestStatus :=
  {| Conditions := []; Message := ""; ActiveInterceptorClass := None;
     ActiveInterceptorCompleted := false; HeartbeatTime := None;
     ExpectedInterceptorFinishTime := None;
     EvictionRequestCancellationPolicy := ""; PodEvictionStatus_ := None |}.

Definition request (interceptors : list Interceptor) (st : EvictionRequestStatus)
    : EvictionRequest :=
  {| ObjectMeta := {| metav1.Name := "evict-web-0"; metav1.Namespace := "default" |};
     Spec := spec interceptors; Status := st |}.

Definition world (er : EvictionRequest) : World :=
  {| evictionRequest := er; statusWrites := []; evictCalls := []; logged := [] |}.

(** The status of a request owned by [class]. *)
Definition owned (class : string) (completed : bool) (heartbeat : option Z)
    : EvictionRequestStatus :=
  {| Conditions := []; Message := ""; ActiveInterceptorClass := Some class;
     ActiveInterceptorCompleted := completed; HeartbeatTime := heartbeat;
     ExpectedInterceptorFinishTime := None;
     EvictionRequestCancellationPolicy := Allow; PodEvictionStatus_ := None |}.

(** Collaborators: the pod exists, the eviction and the status write answer
    as given. *)
Definition clients (evict write : option error) (now : Z) : Clients :=
  {| PodLister := lister;
     EvictV1 := fun _ _ => evict;
     UpdateStatus := fun _ => write;
     Now := now |}.

(** A status past the Dispatcher's defaulting step, no interceptor selected. *)
Definition defaulted : EvictionRequestStatus :=
  {| Conditions := []; Message := ""; ActiveInterceptorClass := None;
     ActiveInterceptorCompleted := false; HeartbeatTime := None;
     ExpectedInterceptorFinishTime := None;
     EvictionRequestCancellationPolicy := Allow; PodEvictionStatus_ := None |}.

(** A request whose pod reference is nil. *)
Definition untargeted : EvictionRequest :=
  {| ObjectMeta := {| metav1.Name := "evict-nothing"; metav1.Namespace := "default" |};
     Spec := {| Type_ := "Soft"; Target := {| PodRef := None |};
                Requesters := []; Interceptors := [];
                HeartbeatDeadlineSeconds := Some 1800 |};
     Status := defaulted |}.

(** A status holding one failed eviction, recorded at clock value 500. *)
Definition failedOnce : EvictionRequestStatus :=
  {| Conditions :=
       [ {| metav1.Type_ := "Evicted"; metav1.Status := "False";
            metav1.ObservedGeneration := 0; metav1.LastTransitionTime := 500;
            metav1.Reason := "EvictionFailed"; metav1.Message := "Failed to evict pod" |} ];
     Message := ""; ActiveInterceptorClass := None;
     ActiveInterceptorCompleted := false; HeartbeatTime := None;
     ExpectedInterceptorFinishTime := None;
     EvictionRequestCancellationPolicy := Allow;
     PodEvictionStatus_ := Some {| FailedAPIEvictionCounter := 1 |} |}.

Definition blocked : error := ErrRemote "Cannot evict pod as it would violate the pod's disruption budget.".
Definition conflict : error := ErrRemote "the object has been modified".

End Scenario.

(** ** Observing an outcome *)

Definition finalWorld {A} (o : Outcome A) : World :=
  match o with
  | Returned _ w => w
  | Panicked w => w
  end.

Definition finalStatus {A} (o : Outcome A) : EvictionRequestStatus :=
  match o with
  | Returned _ w => Status (evictionRequest w)
  | Panicked w => Status (evictionRequest w)
  end.

Definition result {A} (o : Outcome A) : option A :=
  match o with
  | Returned a _ => Some a
  | Panicked _ => None
  end.

(** The first condition of a type, as a reader of the status finds it. *)
Definition findCondition (conditionType : string) (conditions : list metav1.Condition)
    : option metav1.Condition :=
  find (fun c => String.eqb (metav1.Type_ c) conditionType) conditions.

Definition failedCounter (s : EvictionRequestStatus) : Z :=
  match PodEvictionStatus_ s with
  | None => 0
  | Some p => FailedAPIEvictionCounter p
  end.

(** ** Runs

    Between two invocations of the Dispatcher the active interceptor may
    write the status (heartbeat, completion, policy, conditions); the class
    of the active interceptor is the controller's to set. *)

Inductive Event : Type :=
| Reconciliation (r : Clients)
| StatusWrite (st : EvictionRequestStatus).

Definition externalWrite (st : EvictionRequestStatus) (w : World) : World :=
  {| evictionRequest :=
       with_Status
         (set_ActiveInterceptorClass
            (ActiveInterceptorClass (Status (evictionRequest w))) st)
         (evictionRequest w);
     statusWrites := statusWrites w; evictCalls := evictCalls w; logged := logged w |}.

(** One event; [None] when the Dispatcher panics. *)
Definition step (ev : Event) (w : World) : option World :=
  match ev with
  | Reconciliation r =>
      match reconciler.ReconcileEvictionRequest r w with
      | Returned _ w' => Some w'
      | Panicked _ => None
      end
  | StatusWrite st => Some (externalWrite st w)
  end.

(** The world after a run (the run stops at a panic). *)
Fixpoint run (events : list Event) (w : World) : World :=
  match events with
  | [] => w
  | ev :: rest =>
      match step ev w with
      | None => w
      | Some w' => run rest w'
      end
  end.

Definition sameClass (a b : option string) : bool :=
  match a, b with
  | None, None => true
  | Some x, Some y => String.eqb x y
  | _, _ => false
  end.

(** The class an event hands the request to, if it hands it on. *)
Definition selected (before after : World) : list string :=
  match ActiveInterceptorClass (Status (evictionRequest after)) with
  | Some class =>
      if sameClass (ActiveInterceptorClass (Status (evictionRequest before))) (Some class)
      then [] else [class]
  | None => []
  end.

(** The classes the request is handed to along a run, in order. *)
Fixpoint handoffs (events : list Event) (w : World) : list string :=
  match events with
  | [] => []
  | ev :: rest =>
      match step ev w with
      | None => []
      | Some w' => selected w w' ++ handoffs rest w'
      end
  end.

(** ** Vocabulary of the statements *)

(** Arrangements of interceptors by priority. *)
Definition ascending : list Interceptor -> Prop :=
  StronglySorted (fun a b => Priority a <= Priority b).

Definition descending : list Interceptor -> Prop :=
  StronglySorted (fun a b => Priority b <= Priority a).

Definition strictlyDescending : list Interceptor -> Prop :=
  StronglySorted (fun a b => Priority b < Priority a).

(** The heartbeat deadline has passed at clock value [now]: both fields are
    set and more than [HeartbeatDeadlineSeconds] seconds separate [now] from
    the last heartbeat. *)
Definition deadlinePassed (now : Z) (er : EvictionRequest) : Prop :=
  exists seconds heartbeat,
    HeartbeatDeadlineSeconds (Spec er) = Some seconds /\
    HeartbeatTime (Status er) = Some heartbeat /\
    now - heartbeat > seconds * time.Second.

(** The target of the request exists with the recorded identity. *)
Definition targetPresent (lister : string -> string -> PodGet) (er : EvictionRequest) : Prop :=
  exists podRef pod,
    PodRef (Target (Spec er)) = Some podRef /\
    lister (metav1.Namespace (ObjectMeta er)) (Name podRef) = PodFound pod /\
    corev1.UID pod = UID podRef.

(** The active class has no candidate after it: wherever it stands in the
    candidate order, the order ends there. *)
Definition noSuccessor (er : EvictionRequest) (class : string) : Prop :=
  let sorted := interceptor.sortInterceptorsByPriority (Interceptors (Spec er)) in
  forall n, nth_error (map InterceptorClass sorted) n = Some class ->
            nth_error sorted (S n) = None.

(** A request on which a reconciliation at clock value [now] has no hand-off
    to make: there are no interceptors; or the completion flag is not set and
    the heartbeat deadline has not passed; or the flag is set for a class
    with no candidate after it. *)
Definition settled (now : Z) (er : EvictionRequest) : Prop :=
  Interceptors (Spec er) = [] \/
  (ActiveInterceptorCompleted (Status er) = false /\ ~ deadlinePassed now er) \/
  (ActiveInterceptorCompleted (Status er) = true /\
   exists class,
     ActiveInterceptorClass (Status er) = Some class /\ class <> "" /\
     noSuccessor er class).

(** The same with the deadline test as the code makes it. *)
Definition quiet (now : Z) (er : EvictionRequest) : Prop :=
  Interceptors (Spec er) = [] \/
  (ActiveInterceptorCompleted (Status er) = false /\
   interceptor.exceededDeadline now er = None) \/
  (ActiveInterceptorCompleted (Status er) = true /\
   exists class,
     ActiveInterceptorClass (Status er) = Some class /\ class <> "" /\
     noSuccessor er class).

(** Collaborators whose eviction call and status writes succeed. *)
Definition obliging (lister : string -> string -> PodGet) (now : Z) : Clients :=
  {| PodLister := lister; EvictV1 := fun _ _ => None;
     UpdateStatus := fun _ => None; Now := now |}.

Definition nilPodRefMessage : string :=
  "FailedPrecondition: EvictionRequest.Spec.Target.PodRef cannot be nil".

(** How one invocation may move the active class: not at all, from "none" to
    the first candidate, or from a candidate to the one right after it. *)
Definition classStep (order : list string) (before after : option string) : Prop :=
  after = before \/
  (match before with None => True | Some c => c = "" end /\
   exists first, nth_error order 0 = Some first /\ after = Some first) \/
  (exists n current next,
     before = Some current /\ current <> "" /\
     nth_error order n = Some current /\
     nth_error order (S n) = Some next /\ after = Some next).

(** ** Status transformers

    What each operation leaves in the status, written as a function of the
    request before and of the collaborators' answers.  They are not part of
    the program: the lemmas [UpsertCondition_world], [Perform_world],
    [Handle_world] and [ReconcileEvictionRequest_world] below prove that the
    operations compute them. *)

(** The condition [UpsertCondition] builds before the merge. *)
Definition newCondition (now : Z) (conditionType status_ reason message : string)
    : metav1.Condition :=
  {| metav1.Type_ := conditionType; metav1.Status := status_;
     metav1.ObservedGeneration := 0; metav1.LastTransitionTime := now;
     metav1.Reason := reason; metav1.Message := message |}.

(** The status after [UpsertCondition], as a function of the status before. *)
Definition upserted (now : Z) (conditionType status_ reason message : string)
    (st : EvictionRequestStatus) : EvictionRequestStatus :=
  defaultCancellationPolicy
    (set_Conditions
       (status.upsert (Conditions st) (newCondition now conditionType status_ reason message))
       st).

(** The status after [IncrementFailedEvictionCounter]. *)
Definition failureRecorded (now : Z) (st : EvictionRequestStatus) : EvictionRequestStatus :=
  upserted now constants.ConditionTypeEvicted metav1.ConditionFalse
    constants.ReasonEvictionFailed "Failed to evict pod"
    (defaultCancellationPolicy (status.incrementCounter st)).

(** The status after a successful terminal eviction. *)
Definition evictionRecorded (now : Z) (st : EvictionRequestStatus) : EvictionRequestStatus :=
  upserted now constants.ConditionTypeEvicted metav1.ConditionTrue
    constants.ReasonEvictionSucceeded "Pod evicted successfully" st.

(** What [Perform] leaves in the status, by the answers of the collaborators. *)
Definition performedStatus (e : Clients) (er : EvictionRequest) : EvictionRequestStatus :=
  match PodRef (Target (Spec er)) with
  | None =>
      upserted (Now e) constants.ConditionTypeReady metav1.ConditionFalse
        constants.ReasonPodNotFound
        "EvictionRequest.Spec.Target.PodRef cannot be nil" (Status er)
  | Some podRef =>
      match PodLister e (metav1.Namespace (ObjectMeta er)) (Name podRef) with
      | PodFound pod =>
          match EvictV1 e (corev1.Namespace pod) (corev1.Name pod) with
          | Some _ => failureRecorded (Now e) (Status er)
          | None => evictionRecorded (Now e) (Status er)
          end
      | _ => Status er
      end
  end.

(** What [Perform] returns. *)
Definition performedResult (e : Clients) (er : EvictionRequest) : option error :=
  match PodRef (Target (Spec er)) with
  | None => Some (ErrNew "pod reference cannot be nil")
  | Some podRef =>
      match PodLister e (metav1.Namespace (ObjectMeta er)) (Name podRef) with
      | PodFound pod =>
          match EvictV1 e (corev1.Namespace pod) (corev1.Name pod) with
          | Some err => Some (Errorf "failed to evict pod" err)
          | None => None
          end
      | PodNotFound => None
      | PodGetFailed err => Some (Errorf "failed to get pod" err)
      end
  end.

(** The calls [Perform] makes. *)
Definition performedEvictions (e : Clients) (er : EvictionRequest) : list (string * string) :=
  match PodRef (Target (Spec er)) with
  | None => []
  | Some podRef =>
      match PodLister e (metav1.Namespace (ObjectMeta er)) (Name podRef) with
      | PodFound pod => [(corev1.Namespace pod, corev1.Name pod)]
      | _ => []
      end
  end.

(** The status writes [Perform] makes. *)
Definition performedWrites (e : Clients) (er : EvictionRequest) : list EvictionRequest :=
  match PodRef (Target (Spec er)) with
  | None => [with_Status (performedStatus e er) er]
  | Some podRef =>
      match PodLister e (metav1.Namespace (ObjectMeta er)) (Name podRef) with
      | PodFound pod => [with_Status (performedStatus e er) er]
      | _ => []
      end
  end.

(** What [Handle] leaves in the status. *)
Definition handledStatus (i : Clients) (er : EvictionRequest) : EvictionRequestStatus :=
  let st := Status er in
  let interceptors := interceptor.sortInterceptorsByPriority (Interceptors (Spec er)) in
  if interceptor.noActiveInterceptor st then
    match interceptors with
    | [] => st
    | first :: _ => set_ActiveInterceptorClass (Some (InterceptorClass first)) st
    end
  else if ActiveInterceptorCompleted st then
    match ActiveInterceptorClass st with
    | None => st
    | Some activeClass =>
        let currentIndex := interceptor.findInterceptorIndex interceptors activeClass in
        if (0 <=? currentIndex) && (currentIndex + 1 <? Z.of_nat (List.length interceptors))
        then
          match nth_error interceptors (Z.to_nat (currentIndex + 1)) with
          | Some next => set_ActiveInterceptorClass (Some (InterceptorClass next)) st
          | None => st
          end
        else performedStatus i er
    end
  else
    match interceptor.exceededDeadline (Now i) er with
    | Some _ => set_ActiveInterceptorCompleted true st
    | None => st
    end.

(** The request after the Dispatcher's own defaulting step. *)
Definition defaultedRequest (er : EvictionRequest) : EvictionRequest :=
  if String.eqb (EvictionRequestCancellationPolicy (Status er)) ""
  then with_Status (set_EvictionRequestCancellationPolicy Allow (Status er)) er
  else er.

(** What [ReconcileEvictionRequest] leaves in the status. *)
Definition reconciledStatus (r : Clients) (er : EvictionRequest) : EvictionRequestStatus :=
  match PodRef (Target (Spec er)) with
  | None => Status er
  | Some podRef =>
      match PodLister r (metav1.Namespace (ObjectMeta er)) (Name podRef) with
      | PodFound pod =>
          if negb (String.eqb (corev1.UID pod) (UID podRef)) then Status er
          else if String.eqb (EvictionRequestCancellationPolicy (Status er)) "" &&
                  match UpdateStatus r (defaultedRequest er) with
                  | Some _ => true
                  | None => false
                  end
          then Status (defaultedRequest er)
          else if 0 <? Z.of_nat (List.length (Interceptors (Spec er)))
          then handledStatus r (defaultedRequest er)
          else performedStatus r (defaultedRequest er)
      | _ => Status er
      end
  end.

(** The test of [handleCompletedInterceptor]: the active class is found in
    the candidate order and a candidate follows it. *)
Definition hasNext (er : EvictionRequest) (class : string) : bool :=
  let interceptors := interceptor.sortInterceptorsByPriority (Interceptors (Spec er)) in
  let currentIndex := interceptor.findInterceptorIndex interceptors class in
  (0 <=? currentIndex) && (currentIndex + 1 <? Z.of_nat (List.length interceptors)).

(** The requests on which the Dispatcher goes on to the terminal eviction:
    those without interceptors, and those whose active class has the
    completion flag set and no candidate after it. *)
Definition exhausted (er : EvictionRequest) : Prop :=
  Interceptors (Spec er) = [] \/
  exists class,
    ActiveInterceptorClass (Status er) = Some class /\ class <> "" /\
    ActiveInterceptorCompleted (Status er) = true /\ hasNext er class = false.


(** ** Observing the pool and the controller *)

(** The process a work item leaves, whether the pool returned or crashed. *)
Definition finalProcess {A} (x : worker.Exit A) : worker.Process :=
  match x with
  | worker.Finished _ s => s
  | worker.Crashed s => s
  end.

Definition isDone (c : worker.QueueCall) : bool :=
  match c with
  | worker.Done _ => true
  | _ => false
  end.

Definition isRequeue (c : worker.QueueCall) : bool :=
  match c with
  | worker.AddRateLimited _ => true
  | _ => false
  end.

Definition isForget (c : worker.QueueCall) : bool :=
  match c with
  | worker.Forget _ => true
  | _ => false
  end.

(** The queue's answers for a list of items, one after the other. *)
Definition dequeued (items : list (worker.Pool * worker.Object))
    : list (worker.Pool * option worker.Object) :=
  map (fun item => (fst item, Some (snd item))) items.

(** The edges the election reports, with what the informer caches answer
    when the controller starts leading. *)
Inductive Edge : Type :=
| StartedLeading (kubeSyncMap evictionRequestSyncMap : list (string * bool))
| StoppedLeading.

(** The controller through a sequence of edges; [None] is a panic. *)
Fixpoint lead (edges : list Edge) (c : controller.Controller)
    : option controller.Controller :=
  match edges with
  | [] => Some c
  | StartedLeading kubeSyncMap evictionRequestSyncMap :: rest =>
      lead rest (controller.onStartedLeading kubeSyncMap evictionRequestSyncMap c)
  | StoppedLeading :: rest =>
      match controller.onStoppedLeading c with
      | Some c' => lead rest c'
      | None => None
      end
  end.


(** What [processNextWorkItem] answered; [None] when the pool crashed. *)
Definition answered {A} (x : worker.Exit A) : option A :=
  match x with
  | worker.Finished a _ => Some a
  | worker.Crashed _ => None
  end.


(** ** More scenarios *)

Module Floor.

(** A request whose target has gone from the namespace. *)
Definition goneRef : LocalPodReference := {| Name := "gone-0"; UID := "uid-9" |}.

Definition goneRequest : EvictionRequest :=
  {| ObjectMeta := {| metav1.Name := "evict-gone-0"; metav1.Namespace := "default" |};
     Spec := {| Type_ := "Soft"; Target := {| PodRef := Some goneRef |};
                Requesters := [ {| RequesterName := "drain.example.com" |} ];
                Interceptors := [Scenario.interceptorA];
                HeartbeatDeadlineSeconds := Some 1800 |};
     Status := Scenario.defaulted |}.

(** "namespace/name", as [cache.MetaNamespaceKeyFunc] names a namespaced
    object; a value of another type has no metadata to name it by. *)
Definition namespaceKey (obj : worker.Object) : string + error :=
  match obj with
  | worker.EvictionRequestObject er =>
      inl (metav1.Namespace (ObjectMeta er) ++ "/" ++ metav1.Name (ObjectMeta er))%string
  | worker.OtherObject _ => inr (ErrRemote "object has no meta")
  end.

Definition pool (evict write : option error) (now : Z) : worker.Pool :=
  {| worker.reconciler := Scenario.clients evict write now;
     worker.MetaNamespaceKeyFunc := namespaceKey |}.

Definition idle : worker.Process :=
  {| worker.queueCalls := []; worker.handledErrors := [];
     worker.written := []; worker.evicted := []; worker.journal := [] |}.

End Floor.


(** * Properties *)

(** ** Proof tools *)

Ltac go_unfold :=
  unfold reconciler.ReconcileEvictionRequest, interceptor.Handle,
    interceptor.checkInterceptorTimeout, interceptor.markInterceptorAsCompleted,
    interceptor.handleCompletedInterceptor, interceptor.selectNextInterceptor,
    interceptor.selectInitialInterceptor, interceptor.updateEvictionRequestStatus,
    eviction.Perform, status.IncrementFailedEvictionCounter, status.UpsertCondition,
    bind, ret, panic, getRequest, modifyStatus, log, callUpdateStatus, callEvictV1.

Ltac case_match :=
  match goal with
  | |- context [match ?x with _ => _ end] =>
      lazymatch x with
      | context [match _ with _ => _ end] => fail
      | _ => destruct x eqn:?
      end
  end.

Arguments status.upsert : simpl never.
Arguments status.incrementCounter : simpl never.
Arguments defaultCancellationPolicy : simpl never.
Arguments interceptor.sortInterceptorsByPriority : simpl never.
Arguments interceptor.findInterceptorIndex : simpl never.
Arguments interceptor.exceededDeadline : simpl never.
Arguments int32 : simpl never.
Arguments int64 : simpl never.

(** ** The condition list *)

Section Upsert.

Variable condition : metav1.Condition.

Lemma replaceFirst_None conditions :
  status.replaceFirst conditions condition = None <->
  findCondition (metav1.Type_ condition) conditions = None.
Proof.
  unfold findCondition.
  induction conditions as [|c l IH]; cbn; [tauto|].
  destruct (String.eqb (metav1.Type_ c) (metav1.Type_ condition)); [split; discriminate|].
  destruct (status.replaceFirst l condition); cbn; split; intros H;
    try discriminate; try (apply IH; assumption).
  exfalso. apply IH in H. discriminate.
Qed.

Lemma replaceFirst_types conditions conditions' :
  status.replaceFirst conditions condition = Some conditions' ->
  map metav1.Type_ conditions' = map metav1.Type_ conditions.
Proof.
  revert conditions'.
  induction conditions as [|c l IH]; cbn; intros l' H; [discriminate|].
  destruct (String.eqb (metav1.Type_ c) (metav1.Type_ condition)) eqn:E.
  - apply String.eqb_eq in E. inversion H; subst. cbn. now rewrite E.
  - destruct (status.replaceFirst l condition); cbn in H; [|discriminate].
    inversion H; subst. cbn. f_equal. now apply IH.
Qed.

(** The entry found after the loop: the new fields, and the old transition
    time exactly when the status value did not change. *)
Lemma replaceFirst_find conditions conditions' existing :
  status.replaceFirst conditions condition = Some conditions' ->
  findCondition (metav1.Type_ condition) conditions = Some existing ->
  findCondition (metav1.Type_ condition) conditions' =
    Some {| metav1.Type_ := metav1.Type_ condition;
            metav1.Status := metav1.Status condition;
            metav1.ObservedGeneration := metav1.ObservedGeneration condition;
            metav1.LastTransitionTime :=
              if String.eqb (metav1.Status existing) (metav1.Status condition)
              then metav1.LastTransitionTime existing
              else metav1.LastTransitionTime condition;
            metav1.Reason := metav1.Reason condition;
            metav1.Message := metav1.Message condition |}.
Proof.
  unfold findCondition. revert conditions'.
  induction conditions as [|c l IH]; cbn; intros l' H F; [discriminate|].
  destruct (String.eqb (metav1.Type_ c) (metav1.Type_ condition)) eqn:E.
  - inversion H; subst; inversion F; subst. cbn. rewrite String.eqb_refl.
    now destruct (String.eqb (metav1.Status existing) (metav1.Status condition)).
  - destruct (status.replaceFirst l condition) as [l0|]; cbn in H; [|discriminate].
    inversion H; subst. cbn. rewrite E. now apply IH.
Qed.

Lemma replaceFirst_other conditions conditions' ty :
  status.replaceFirst conditions condition = Some conditions' ->
  ty <> metav1.Type_ condition ->
  findCondition ty conditions' = findCondition ty conditions.
Proof.
  unfold findCondition. revert conditions'.
  induction conditions as [|c l IH]; cbn; intros l' H N; [discriminate|].
  destruct (String.eqb (metav1.Type_ c) (metav1.Type_ condition)) eqn:E.
  - apply String.eqb_eq in E. inversion H; subst. cbn.
    replace (String.eqb (metav1.Type_ condition) ty) with false
      by (symmetry; apply String.eqb_neq; congruence).
    replace (String.eqb (metav1.Type_ c) ty) with false
      by (symmetry; apply String.eqb_neq; congruence).
    reflexivity.
  - destruct (status.replaceFirst l condition) as [l0|]; cbn in H; [|discriminate].
    inversion H; subst. cbn. destruct (String.eqb (metav1.Type_ c) ty); [reflexivity|].
    now apply IH.
Qed.

Lemma find_app_None ty (l : list metav1.Condition) c :
  findCondition ty l = None ->
  findCondition ty (l ++ [c]) = findCondition ty [c].
Proof.
  unfold findCondition. induction l as [|x l IH]; cbn; [reflexivity|].
  destruct (String.eqb (metav1.Type_ x) ty); [discriminate|]. exact IH.
Qed.

Lemma find_app_other ty (l : list metav1.Condition) c :
  ty <> metav1.Type_ c ->
  findCondition ty (l ++ [c]) = findCondition ty l.
Proof.
  unfold findCondition. intros N. induction l as [|x l IH]; cbn.
  - replace (String.eqb (metav1.Type_ c) ty) with false
      by (symmetry; apply String.eqb_neq; congruence).
    reflexivity.
  - destruct (String.eqb (metav1.Type_ x) ty); [reflexivity|]. exact IH.
Qed.

Lemma findCondition_None_notin ty (l : list metav1.Condition) :
  findCondition ty l = None -> ~ In ty (map metav1.Type_ l).
Proof.
  unfold findCondition. induction l as [|x l IH]; cbn; [tauto|].
  destruct (String.eqb (metav1.Type_ x) ty) eqn:E; [discriminate|].
  apply String.eqb_neq in E. intros F [H|H]; [congruence|]. now apply IH.
Qed.

Lemma upsert_NoDup conditions :
  NoDup (map metav1.Type_ conditions) ->
  NoDup (map metav1.Type_ (status.upsert conditions condition)).
Proof.
  intros ND. unfold status.upsert.
  destruct (status.replaceFirst conditions condition) as [l'|] eqn:E.
  - now rewrite (replaceFirst_types _ _ E).
  - apply replaceFirst_None in E. apply findCondition_None_notin in E.
    rewrite map_app. cbn. apply NoDup_app; [assumption|repeat constructor; cbn; tauto|].
    intros x Hx [H|[]]. congruence.
Qed.

End Upsert.

(** ** What one call leaves behind *)

Lemma UpsertCondition_world s conditionType status_ reason message w :
  let o := status.UpsertCondition s conditionType status_ reason message w in
  let er' := with_Status
               (upserted (Now s) conditionType status_ reason message
                  (Status (evictionRequest w)))
               (evictionRequest w) in
  evictionRequest (finalWorld o) = er' /\
  statusWrites (finalWorld o) = statusWrites w ++ [er'] /\
  evictCalls (finalWorld o) = evictCalls w /\
  result o = Some (UpdateStatus s er').
Proof.
  go_unfold. unfold upserted, newCondition, with_Status. cbn.
  case_match; cbn; repeat split; congruence.
Qed.

Lemma IncrementFailedEvictionCounter_world s w :
  let o := status.IncrementFailedEvictionCounter s w in
  let er' := with_Status (failureRecorded (Now s) (Status (evictionRequest w)))
               (evictionRequest w) in
  evictionRequest (finalWorld o) = er' /\
  statusWrites (finalWorld o) = statusWrites w ++ [er'] /\
  evictCalls (finalWorld o) = evictCalls w /\
  result o = Some (UpdateStatus s er').
Proof.
  go_unfold. unfold failureRecorded, upserted, newCondition, with_Status. cbn.
  case_match; cbn; repeat split; congruence.
Qed.

(** The fields a merge of conditions leaves alone. *)
Lemma defaultCancellationPolicy_fields st :
  let st' := defaultCancellationPolicy st in
  Conditions st' = Conditions st /\
  ActiveInterceptorClass st' = ActiveInterceptorClass st /\
  ActiveInterceptorCompleted st' = ActiveInterceptorCompleted st /\
  HeartbeatTime st' = HeartbeatTime st /\
  PodEvictionStatus_ st' = PodEvictionStatus_ st /\
  EvictionRequestCancellationPolicy st' =
    (if String.eqb (EvictionRequestCancellationPolicy st) "" then Allow
     else EvictionRequestCancellationPolicy st).
Proof.
  unfold defaultCancellationPolicy.
  destruct (String.eqb (EvictionRequestCancellationPolicy st) ""); cbn; repeat split.
Qed.

Lemma defaultCancellationPolicy_idem st :
  defaultCancellationPolicy (defaultCancellationPolicy st) = defaultCancellationPolicy st.
Proof.
  unfold defaultCancellationPolicy.
  destruct (String.eqb (EvictionRequestCancellationPolicy st) "") eqn:E; cbn; [reflexivity|].
  now rewrite E.
Qed.

Lemma upserted_fields now ty s_ rs msg st :
  let st' := upserted now ty s_ rs msg st in
  Conditions st' = status.upsert (Conditions st) (newCondition now ty s_ rs msg) /\
  ActiveInterceptorClass st' = ActiveInterceptorClass st /\
  ActiveInterceptorCompleted st' = ActiveInterceptorCompleted st /\
  HeartbeatTime st' = HeartbeatTime st /\
  PodEvictionStatus_ st' = PodEvictionStatus_ st /\
  EvictionRequestCancellationPolicy st' =
    (if String.eqb (EvictionRequestCancellationPolicy st) "" then Allow
     else EvictionRequestCancellationPolicy st).
Proof.
  unfold upserted. cbn zeta.
  destruct (defaultCancellationPolicy_fields
              (set_Conditions (status.upsert (Conditions st) (newCondition now ty s_ rs msg)) st))
    as (H1 & H2 & H3 & H4 & H5 & H6).
  rewrite H1, H2, H3, H4, H5, H6. cbn. repeat split.
Qed.

Lemma upsert_find (conditions : list metav1.Condition) now ty s_ rs msg :
  findCondition ty (status.upsert conditions (newCondition now ty s_ rs msg)) =
  Some (newCondition
          (match findCondition ty conditions with
           | Some existing =>
               if String.eqb (metav1.Status existing) s_
               then metav1.LastTransitionTime existing else now
           | None => now
           end) ty s_ rs msg).
Proof.
  unfold status.upsert.
  destruct (status.replaceFirst conditions (newCondition now ty s_ rs msg)) as [l'|] eqn:E.
  - destruct (findCondition ty conditions) as [existing|] eqn:F.
    + apply (replaceFirst_find _ _ _ existing E F).
    + apply (replaceFirst_None (newCondition now ty s_ rs msg)) in F. congruence.
  - apply replaceFirst_None in E. cbn in E. rewrite E.
    rewrite find_app_None by assumption.
    unfold findCondition. cbn. now rewrite String.eqb_refl.
Qed.

Lemma upsert_find_other (conditions : list metav1.Condition) now ty s_ rs msg ty' :
  ty' <> ty ->
  findCondition ty' (status.upsert conditions (newCondition now ty s_ rs msg)) =
  findCondition ty' conditions.
Proof.
  intros N. unfold status.upsert.
  destruct (status.replaceFirst conditions (newCondition now ty s_ rs msg)) as [l'|] eqn:E.
  - now apply (replaceFirst_other _ _ _ ty' E).
  - now apply find_app_other.
Qed.

(** ** The status manager *)

(** C8. [UpsertCondition] merges by type: the entry found afterwards under the
    type carries the new status, reason and message; it keeps the previous
    [LastTransitionTime] when an entry of the type existed with the same
    status value and takes the current time when the status value changed or
    the type is new.  Entries of other types are as before, a list with at
    most one condition per type stays so, the cancellation policy is [Allow]
    afterwards when it was unset, and the call writes the status exactly
    once, after all of this, returning what the write returned. *)
Theorem UpsertCondition_merges_by_type
    (s : Clients) (conditionType status_ reason message : string) (w : World) :
  let before := Status (evictionRequest w) in
  let o := status.UpsertCondition s conditionType status_ reason message w in
  let after := finalStatus o in
  NoDup (map metav1.Type_ (Conditions before)) ->
  findCondition conditionType (Conditions after) =
    Some {| metav1.Type_ := conditionType; metav1.Status := status_;
            metav1.ObservedGeneration := 0;
            metav1.LastTransitionTime :=
              match findCondition conditionType (Conditions before) with
              | Some existing =>
                  if String.eqb (metav1.Status existing) status_
                  then metav1.LastTransitionTime existing
                  else Now s
              | None => Now s
              end;
            metav1.Reason := reason; metav1.Message := message |} /\
  (forall ty, ty <> conditionType ->
     findCondition ty (Conditions after) = findCondition ty (Conditions before)) /\
  NoDup (map metav1.Type_ (Conditions after)) /\
  EvictionRequestCancellationPolicy after =
    (if String.eqb (EvictionRequestCancellationPolicy before) "" then Allow
     else EvictionRequestCancellationPolicy before) /\
  statusWrites (finalWorld o) = statusWrites w ++ [evictionRequest (finalWorld o)] /\
  Status (evictionRequest (finalWorld o)) = after /\
  result o = Some (UpdateStatus s (evictionRequest (finalWorld o))).
Proof.
  intros before o after ND.
  destruct (UpsertCondition_world s conditionType status_ reason message w)
    as (He & Hw & _ & Hr).
  fold o in He, Hw, Hr.
  assert (Ha : after = upserted (Now s) conditionType status_ reason message before).
  { unfold after, finalStatus, finalWorld in *. destruct o; rewrite He; reflexivity. }
  destruct (upserted_fields (Now s) conditionType status_ reason message before)
    as (Hc & _ & _ & _ & _ & Hp).
  rewrite Ha, Hc, Hp, Hw, Hr, He.
  repeat split.
  - apply upsert_find.
  - intros ty N. now apply upsert_find_other.
  - now apply upsert_NoDup.
Qed.

(** ** The terminal eviction performer *)

Lemma with_Status_same er : with_Status (Status er) er = er.
Proof. now destruct er. Qed.

Lemma Perform_world e w :
  let o := eviction.Perform e w in
  evictionRequest (finalWorld o) =
    with_Status (performedStatus e (evictionRequest w)) (evictionRequest w) /\
  result o = Some (performedResult e (evictionRequest w)) /\
  statusWrites (finalWorld o) = statusWrites w ++ performedWrites e (evictionRequest w) /\
  evictCalls (finalWorld o) = evictCalls w ++ performedEvictions e (evictionRequest w).
Proof.
  go_unfold.
  unfold performedStatus, performedResult, performedWrites, performedEvictions,
    performedStatus, failureRecorded, evictionRecorded, upserted, newCondition, with_Status.
  cbn. repeat (case_match; cbn); rewrite ?app_nil_r; repeat split; try reflexivity;
    destruct (evictionRequest w); reflexivity.
Qed.

Lemma int32_small z : in_int32 z -> int32 z = z.
Proof.
  unfold in_int32, MinInt32, MaxInt32, int32. intros H.
  rewrite Z.mod_small by lia. lia.
Qed.

Lemma failureRecorded_counter now st :
  PodEvictionStatus_ (failureRecorded now st) =
    Some {| FailedAPIEvictionCounter := int32 (failedCounter st + 1) |}.
Proof.
  unfold failureRecorded.
  destruct (upserted_fields now constants.ConditionTypeEvicted metav1.ConditionFalse
              constants.ReasonEvictionFailed "Failed to evict pod"
              (defaultCancellationPolicy (status.incrementCounter st)))
    as (_ & _ & _ & _ & H & _).
  rewrite H.
  destruct (defaultCancellationPolicy_fields (status.incrementCounter st))
    as (_ & _ & _ & _ & H' & _).
  rewrite H'. unfold status.incrementCounter, failedCounter. cbn.
  now destruct (PodEvictionStatus_ st).
Qed.

(** C6. When the eviction call fails, [Perform] leaves the failure counter
    one higher ([int32] increment, so exactly [+ 1] for every counter value
    below the largest [int32]), with the counter substructure present; the
    condition found under "Evicted" has status "False" and the reason
    "EvictionFailed"; the status is written once; and the call returns an
    error wrapping the eviction error. *)
Theorem Perform_records_failed_eviction
    (e : Clients) (w : World) (podRef : LocalPodReference) (pod : corev1.Pod)
    (err : error) :
  let er := evictionRequest w in
  let o := eviction.Perform e w in
  let before := Status er in
  let after := finalStatus o in
  PodRef (Target (Spec er)) = Some podRef ->
  PodLister e (metav1.Namespace (ObjectMeta er)) (Name podRef) = PodFound pod ->
  EvictV1 e (corev1.Namespace pod) (corev1.Name pod) = Some err ->
  PodEvictionStatus_ after =
    Some {| FailedAPIEvictionCounter := int32 (failedCounter before + 1) |} /\
  (in_int32 (failedCounter before) -> failedCounter before < MaxInt32 ->
     failedCounter after = failedCounter before + 1) /\
  (exists t,
     findCondition constants.ConditionTypeEvicted (Conditions after) =
       Some {| metav1.Type_ := constants.ConditionTypeEvicted;
               metav1.Status := metav1.ConditionFalse;
               metav1.ObservedGeneration := 0;
               metav1.LastTransitionTime := t;
               metav1.Reason := constants.ReasonEvictionFailed;
               metav1.Message := "Failed to evict pod" |}) /\
  statusWrites (finalWorld o) = statusWrites w ++ [evictionRequest (finalWorld o)] /\
  evictCalls (finalWorld o) = evictCalls w ++ [(corev1.Namespace pod, corev1.Name pod)] /\
  result o = Some (Some (Errorf "failed to evict pod" err)).
Proof.
  intros er o before after HP HL HE.
  destruct (Perform_world e w) as (Hw & Hr & Hs & Hv). fold o in Hw, Hr, Hs, Hv.
  unfold performedWrites, performedEvictions in *.
  unfold performedStatus, performedResult in *. fold er in Hw, Hr, Hs, Hv.
  rewrite HP, HL, ?HE in *.
  assert (Ha : after = failureRecorded (Now e) before).
  { unfold after, finalStatus, finalWorld in *. destruct o; rewrite Hw; reflexivity. }
  rewrite Ha, failureRecorded_counter.
  split; [reflexivity|]. split.
  { intros R L. unfold failedCounter at 1. rewrite failureRecorded_counter. cbn.
    apply int32_small. unfold in_int32, MinInt32, MaxInt32 in *. lia. }
  split.
  { eexists. unfold failureRecorded.
    match goal with |- context [upserted ?n ?a ?b ?c ?d ?s] =>
      destruct (upserted_fields n a b c d s) as (Hc & _) end.
    rewrite Hc. apply upsert_find. }
  split; [|split; [exact Hv|exact Hr]].
  rewrite Hs, Hw. reflexivity.
Qed.

(** ** The candidate order *)

Section CandidateOrder.

Let less (a b : Interceptor) : bool := Priority b <? Priority a.

Lemma insertLeft_Permutation (x : Interceptor) left :
  Permutation (sort.insertLeft less x left) (x :: left).
Proof.
  induction left as [|y l IH]; cbn; [reflexivity|].
  destruct (less x y); [|reflexivity].
  rewrite IH. apply perm_swap.
Qed.

Lemma insertLeft_ascending (x : Interceptor) left :
  ascending left -> ascending (sort.insertLeft less x left).
Proof.
  unfold ascending. induction left as [|y l IH]; cbn; intros S.
  - repeat constructor.
  - apply StronglySorted_inv in S. destruct S as [S F].
    unfold less. destruct (Priority y <? Priority x) eqn:E.
    + apply Z.ltb_lt in E. constructor; [now apply IH|].
      rewrite Forall_forall. intros z Hz.
      apply (Permutation_in _ (insertLeft_Permutation x l)) in Hz.
      destruct Hz as [<-|Hz]; [lia|].
      rewrite Forall_forall in F. now apply F.
    + apply Z.ltb_ge in E. constructor; [now constructor|].
      constructor; [exact E|].
      rewrite Forall_forall in *. intros z Hz. specialize (F z Hz). lia.
Qed.

Lemma insertion_loop (s left : list Interceptor) :
  let left' := fold_left (fun left x => sort.insertLeft less x left) s left in
  Permutation left' (s ++ left) /\ (ascending left -> ascending left').
Proof.
  revert left. induction s as [|x s IH]; cbn; intros left; [split; auto|].
  destruct (IH (sort.insertLeft less x left)) as [P S]. split.
  - rewrite P. rewrite insertLeft_Permutation. symmetry. apply Permutation_middle.
  - intros A. apply S. now apply insertLeft_ascending.
Qed.

Lemma StronglySorted_snoc {A} (R : A -> A -> Prop) l a :
  StronglySorted R l -> Forall (fun x => R x a) l -> StronglySorted R (l ++ [a]).
Proof.
  induction l as [|x l IH]; cbn; intros S F; [repeat constructor|].
  apply StronglySorted_inv in S. destruct S as [S Fx].
  inversion F; subst. constructor; [now apply IH|].
  apply Forall_app. split; [assumption|now constructor].
Qed.

Lemma ascending_rev l : ascending l -> descending (rev l).
Proof.
  unfold ascending, descending. induction l as [|x l IH]; cbn; intros S; [constructor|].
  apply StronglySorted_inv in S. destruct S as [S F].
  apply StronglySorted_snoc; [now apply IH|]. now apply Forall_rev.
Qed.

Lemma sortInterceptorsByPriority_Permutation interceptors :
  Permutation (interceptor.sortInterceptorsByPriority interceptors) interceptors.
Proof.
  unfold interceptor.sortInterceptorsByPriority, sort.Slice.
  rewrite <- Permutation_rev.
  destruct (insertion_loop interceptors []) as [P _].
  fold less. rewrite P. now rewrite app_nil_r.
Qed.

Lemma sortInterceptorsByPriority_descending interceptors :
  descending (interceptor.sortInterceptorsByPriority interceptors).
Proof.
  unfold interceptor.sortInterceptorsByPriority, sort.Slice.
  apply ascending_rev.
  destruct (insertion_loop interceptors []) as [_ S]. apply S. constructor.
Qed.

Lemma sortInterceptorsByPriority_length interceptors :
  List.length (interceptor.sortInterceptorsByPriority interceptors) = List.length interceptors.
Proof. apply Permutation_length, sortInterceptorsByPriority_Permutation. Qed.

(** Two strictly descending arrangements of the same interceptors are the
    same slice. *)
Lemma strictlyDescending_unique l1 l2 :
  strictlyDescending l1 -> strictlyDescending l2 -> Permutation l1 l2 -> l1 = l2.
Proof.
  unfold strictlyDescending. revert l2.
  induction l1 as [|a l1 IH]; intros l2 S1 S2 P.
  - now apply Permutation_nil in P.
  - destruct l2 as [|b l2]; [symmetry in P; now apply Permutation_nil in P|].
    apply StronglySorted_inv in S1. destruct S1 as [S1 F1].
    apply StronglySorted_inv in S2. destruct S2 as [S2 F2].
    rewrite Forall_forall in F1, F2.
    assert (a = b).
    { assert (Ha : In a (b :: l2)) by (apply (Permutation_in _ P); now left).
      assert (Hb : In b (a :: l1))
        by (apply (Permutation_in _ (Permutation_sym P)); now left).
      destruct Ha as [->|Ha]; [reflexivity|].
      destruct Hb as [->|Hb]; [reflexivity|].
      specialize (F1 b Hb). specialize (F2 a Ha). lia. }
    subst b. f_equal. apply IH; try assumption.
    now apply Permutation_cons_inv in P.
Qed.

Lemma descending_strict l :
  NoDup (map Priority l) -> descending l -> strictlyDescending l.
Proof.
  unfold descending, strictlyDescending.
  induction l as [|a l IH]; cbn; intros ND S; [constructor|].
  apply StronglySorted_inv in S. destruct S as [S F].
  inversion ND; subst. constructor; [now apply IH|].
  rewrite Forall_forall in *. intros x Hx. specialize (F x Hx).
  assert (Priority x <> Priority a).
  { intros E. apply H1. rewrite <- E. now apply in_map. }
  lia.
Qed.

(** With pairwise distinct priorities the result does not depend on the
    sorting procedure: whatever arrangement of the interceptors is strictly
    descending is the one [sortInterceptorsByPriority] returns. *)
Lemma Slice_unique interceptors sorted :
  NoDup (map Priority interceptors) ->
  Permutation sorted interceptors ->
  strictlyDescending sorted ->
  sorted = interceptor.sortInterceptorsByPriority interceptors.
Proof.
  intros ND P S. apply strictlyDescending_unique; [assumption| |].
  - apply descending_strict; [|apply sortInterceptorsByPriority_descending].
    apply (Permutation_NoDup
             (Permutation_map Priority
                (Permutation_sym (sortInterceptorsByPriority_Permutation interceptors)))).
    assumption.
  - rewrite P. symmetry. apply sortInterceptorsByPriority_Permutation.
Qed.

(** The first candidate has the highest priority of all. *)
Lemma sortInterceptorsByPriority_head interceptors first rest :
  interceptor.sortInterceptorsByPriority interceptors = first :: rest ->
  In first interceptors /\
  forall x, In x interceptors -> Priority x <= Priority first.
Proof.
  intros E.
  pose proof (sortInterceptorsByPriority_Permutation interceptors) as P.
  pose proof (sortInterceptorsByPriority_descending interceptors) as S.
  rewrite E in P, S. split.
  - apply (Permutation_in _ P). now left.
  - intros x Hx. apply (Permutation_in _ (Permutation_sym P)) in Hx.
    apply StronglySorted_inv in S. destruct S as [_ F].
    rewrite Forall_forall in F. destruct Hx as [<-|Hx]; [lia|]. now apply F.
Qed.

End CandidateOrder.

(** ** The interceptor handler *)

Lemma Handle_world i w :
  evictionRequest (finalWorld (interceptor.Handle i w)) =
    with_Status (handledStatus i (evictionRequest w)) (evictionRequest w).
Proof.
  go_unfold.
  unfold handledStatus, interceptor.noActiveInterceptor, performedStatus,
    failureRecorded, evictionRecorded, upserted, newCondition, with_Status.
  cbn. repeat (case_match; cbn); try reflexivity;
    try (destruct (evictionRequest w); reflexivity);
    try discriminate; try congruence.
  all: match goal with
       | H : (_ && _)%bool = true |- _ => apply andb_prop in H; destruct H
       end;
       repeat match goal with
       | H : (_ <? _) = true |- _ => apply Z.ltb_lt in H
       | H : (_ <=? _) = true |- _ => apply Z.leb_le in H
       end; try lia.
Qed.

Lemma findInterceptorIndexFrom_range start interceptors class :
  let idx := interceptor.findInterceptorIndexFrom start interceptors class in
  0 <= start ->
  idx = -1 \/ start <= idx < start + Z.of_nat (List.length interceptors).
Proof.
  cbn zeta. revert start.
  induction interceptors as [|x l IH]; cbn [interceptor.findInterceptorIndexFrom List.length];
    intros start Hs; [now left|].
  destruct (String.eqb (InterceptorClass x) class); [right; lia|].
  destruct (IH (start + 1)) as [H|H]; [lia|now left|right; lia].
Qed.

(** The index found is the first position holding the class. *)
Lemma findInterceptorIndexFrom_nth start interceptors class :
  let idx := interceptor.findInterceptorIndexFrom start interceptors class in
  0 <= start -> idx <> -1 ->
  nth_error (map InterceptorClass interceptors) (Z.to_nat (idx - start)) = Some class.
Proof.
  cbn zeta. revert start.
  induction interceptors as [|x l IH]; cbn [interceptor.findInterceptorIndexFrom];
    intros start Hs N; [congruence|].
  destruct (String.eqb (InterceptorClass x) class) eqn:E.
  - apply String.eqb_eq in E. rewrite Z.sub_diag. cbn. now rewrite E.
  - pose proof (findInterceptorIndexFrom_range (start + 1) l class) as R.
    cbn zeta in R. specialize (IH (start + 1)).
    destruct R as [R|R]; [lia|congruence|].
    replace (Z.to_nat (interceptor.findInterceptorIndexFrom (start + 1) l class - start))
      with (S (Z.to_nat (interceptor.findInterceptorIndexFrom (start + 1) l class - (start + 1))))
      by lia.
    cbn. apply IH; [lia|assumption].
Qed.

Lemma findInterceptorIndexFrom_In start interceptors class :
  In class (map InterceptorClass interceptors) ->
  interceptor.findInterceptorIndexFrom start interceptors class <> -1 \/ start < 0.
Proof.
  revert start.
  induction interceptors as [|x l IH]; cbn [interceptor.findInterceptorIndexFrom map In];
    intros start H; [tauto|].
  destruct (String.eqb (InterceptorClass x) class) eqn:E.
  - destruct (Z_lt_dec start 0); [now right|left; lia].
  - apply String.eqb_neq in E. destruct H as [H|H]; [congruence|].
    destruct (IH (start + 1) H) as [H'|H']; [now left|].
    right. lia.
Qed.

(** With classes unique, the class at position [n] is found at [n]. *)
Lemma findInterceptorIndex_unique interceptors n class :
  NoDup (map InterceptorClass interceptors) ->
  nth_error (map InterceptorClass interceptors) n = Some class ->
  interceptor.findInterceptorIndex interceptors class = Z.of_nat n.
Proof.
  intros ND Hn. unfold interceptor.findInterceptorIndex.
  pose proof (findInterceptorIndexFrom_range 0 interceptors class) as R.
  pose proof (findInterceptorIndexFrom_nth 0 interceptors class) as F.
  cbn zeta in R, F.
  destruct (findInterceptorIndexFrom_In 0 interceptors class) as [N|N];
    [eapply nth_error_In; eassumption| |lia].
  destruct R as [R|R]; [lia|congruence|].
  specialize (F ltac:(lia) N). rewrite Z.sub_0_r in F.
  assert (Z.to_nat (interceptor.findInterceptorIndexFrom 0 interceptors class) = n).
  { eapply NoDup_nth_error; [exact ND| |congruence].
    apply nth_error_Some. congruence. }
  lia.
Qed.

Lemma performedStatus_class e er :
  ActiveInterceptorClass (performedStatus e er) = ActiveInterceptorClass (Status er).
Proof.
  unfold performedStatus, failureRecorded, evictionRecorded.
  repeat case_match; try reflexivity;
    repeat match goal with
    | |- context [upserted ?n ?a ?b ?c ?d ?s] =>
        let H := fresh in
        destruct (upserted_fields n a b c d s) as (_ & H & _); rewrite H; clear H
    end;
    try reflexivity.
  now destruct (defaultCancellationPolicy_fields (status.incrementCounter (Status er)))
    as (_ & -> & _).
Qed.

Lemma handledStatus_classStep i er :
  classStep
    (map InterceptorClass (interceptor.sortInterceptorsByPriority (Interceptors (Spec er))))
    (ActiveInterceptorClass (Status er))
    (ActiveInterceptorClass (handledStatus i er)).
Proof.
  unfold handledStatus, interceptor.noActiveInterceptor.
  set (sorted := interceptor.sortInterceptorsByPriority (Interceptors (Spec er))).
  destruct (ActiveInterceptorClass (Status er)) as [c|] eqn:EC.
  - destruct (String.eqb c "") eqn:E0.
    + apply String.eqb_eq in E0. destruct sorted as [|first rest]; [left; congruence|].
      right; left. split; [assumption|]. exists (InterceptorClass first). now split.
    + apply String.eqb_neq in E0.
      destruct (ActiveInterceptorCompleted (Status er)).
      * destruct ((0 <=? interceptor.findInterceptorIndex sorted c) &&
                  (interceptor.findInterceptorIndex sorted c + 1 <? Z.of_nat (List.length sorted)))%bool
          eqn:EI.
        -- apply andb_prop in EI. destruct EI as [E1 E2].
           apply Z.leb_le in E1. apply Z.ltb_lt in E2.
           destruct (nth_error sorted (Z.to_nat (interceptor.findInterceptorIndex sorted c + 1)))
             as [next|] eqn:EN; [|left; cbn; congruence].
           right; right.
           exists (Z.to_nat (interceptor.findInterceptorIndex sorted c)), c, (InterceptorClass next).
           repeat split; try assumption.
           ++ pose proof (findInterceptorIndexFrom_nth 0 sorted c) as F. cbn zeta in F.
              unfold interceptor.findInterceptorIndex in *. rewrite Z.sub_0_r in F.
              apply F; lia.
           ++ replace (S (Z.to_nat (interceptor.findInterceptorIndex sorted c)))
                with (Z.to_nat (interceptor.findInterceptorIndex sorted c + 1)) by lia.
              rewrite nth_error_map, EN. reflexivity.
        -- left. rewrite performedStatus_class. assumption.
      * left. destruct (interceptor.exceededDeadline (Now i) er); cbn; congruence.
  - destruct sorted as [|first rest]; [left; congruence|].
    right; left. split; [exact I|]. exists (InterceptorClass first). now split.
Qed.

(** ** The Dispatcher *)

Lemma ReconcileEvictionRequest_world r w :
  evictionRequest (finalWorld (reconciler.ReconcileEvictionRequest r w)) =
    with_Status (reconciledStatus r (evictionRequest w)) (evictionRequest w).
Proof.
  unfold reconciler.ReconcileEvictionRequest, reconciledStatus, defaultedRequest.
  unfold bind, getRequest, ret, log, modifyStatus, callUpdateStatus, panic.
  destruct (PodRef (Target (Spec (evictionRequest w)))) as [podRef|];
    [|cbn; now rewrite with_Status_same].
  destruct (PodLister r _ _) as [pod| |err]; try (cbn; now rewrite with_Status_same).
  destruct (negb (String.eqb (corev1.UID pod) (UID podRef)));
    [cbn; now rewrite with_Status_same|].
  destruct (String.eqb (EvictionRequestCancellationPolicy (Status (evictionRequest w))) "");
    cbn [andb].
  - cbn [evictionRequest].
    destruct (UpdateStatus r _); [reflexivity|].
    destruct (0 <? Z.of_nat (List.length (Interceptors (Spec (evictionRequest w))))).
    + rewrite Handle_world. reflexivity.
    + match goal with |- context [eviction.Perform r ?w0] =>
        destruct (Perform_world r w0) as (H & _); cbn zeta in H; rewrite H
      end. reflexivity.
  - destruct (0 <? Z.of_nat (List.length (Interceptors (Spec (evictionRequest w))))).
    + rewrite Handle_world. reflexivity.
    + destruct (Perform_world r w) as (H & _). rewrite H. reflexivity.
Qed.

(** The Dispatcher panics exactly on a nil pod reference. *)
Lemma ReconcileEvictionRequest_panics r w :
  result (reconciler.ReconcileEvictionRequest r w) = None <->
  PodRef (Target (Spec (evictionRequest w))) = None.
Proof.
  split.
  - go_unfold. unfold interceptor.noActiveInterceptor. cbn.
    pose proof (sortInterceptorsByPriority_length
                  (Interceptors (Spec (evictionRequest w)))) as L.
    repeat (case_match; cbn in * ); intros H; try reflexivity; try discriminate H;
      try congruence;
      repeat match goal with
      | H : (_ && _)%bool = true |- _ => apply andb_prop in H; destruct H
      | H : (_ <? _) = true |- _ => apply Z.ltb_lt in H
      | H : (_ <=? _) = true |- _ => apply Z.leb_le in H
      | H : nth_error _ _ = None |- _ => apply nth_error_None in H
      end; cbn in *; try lia.
  - intros H. unfold reconciler.ReconcileEvictionRequest, bind, getRequest.
    rewrite H. reflexivity.
Qed.

Lemma reconciledStatus_classStep r er :
  classStep
    (map InterceptorClass (interceptor.sortInterceptorsByPriority (Interceptors (Spec er))))
    (ActiveInterceptorClass (Status er))
    (ActiveInterceptorClass (reconciledStatus r er)).
Proof.
  assert (D : Spec (defaultedRequest er) = Spec er /\
              ActiveInterceptorClass (Status (defaultedRequest er)) =
              ActiveInterceptorClass (Status er)).
  { unfold defaultedRequest.
    destruct (String.eqb (EvictionRequestCancellationPolicy (Status er)) ""); now split. }
  destruct D as [DS DC].
  unfold reconciledStatus. repeat case_match; try (now left).
  all: first [ rewrite <- DS, <- DC; apply handledStatus_classStep
             | left; now rewrite performedStatus_class ].
Qed.

Lemma step_classStep ev w w' :
  step ev w = Some w' ->
  Spec (evictionRequest w') = Spec (evictionRequest w) /\
  classStep
    (map InterceptorClass
       (interceptor.sortInterceptorsByPriority (Interceptors (Spec (evictionRequest w)))))
    (ActiveInterceptorClass (Status (evictionRequest w)))
    (ActiveInterceptorClass (Status (evictionRequest w'))).
Proof.
  destruct ev as [r|st]; cbn [step].
  - pose proof (ReconcileEvictionRequest_world r w) as H.
    destruct (reconciler.ReconcileEvictionRequest r w) as [a w0|w0];
      [|intros E; discriminate E].
    intros E. injection E as E. subst w0. cbn in H. rewrite H. cbn. split; [reflexivity|].
    apply reconciledStatus_classStep.
  - intros E. injection E as E. subst w'. cbn. split; [reflexivity|now left].
Qed.

Lemma skipn_nth_error {A} (l : list A) n x :
  nth_error l n = Some x -> skipn n l = x :: skipn (S n) l.
Proof.
  revert l. induction n as [|n IH]; intros [|y l]; cbn; try discriminate.
  - intros E. now inversion E.
  - intros E. now apply IH.
Qed.

Lemma sameClass_refl c : sameClass c c = true.
Proof. destruct c; cbn; [apply String.eqb_refl|reflexivity]. Qed.

Lemma selected_same w w' :
  ActiveInterceptorClass (Status (evictionRequest w')) =
  ActiveInterceptorClass (Status (evictionRequest w)) ->
  selected w w' = [].
Proof.
  unfold selected. intros ->.
  destruct (ActiveInterceptorClass (Status (evictionRequest w))) as [c|] eqn:E;
    [|reflexivity].
  now rewrite sameClass_refl.
Qed.

Section HandOff.

Variable order : list string.
Hypothesis order_NoDup : NoDup order.
Hypothesis order_named : ~ In "" order.

Let orderOf (w : World) : list string :=
  map InterceptorClass
    (interceptor.sortInterceptorsByPriority (Interceptors (Spec (evictionRequest w)))).

(** Along any run the hand-offs walk down the candidate order from where the
    request stands, one position at a time. *)
Lemma handoffs_walk events :
  forall w, orderOf w = order ->
    (interceptor.noActiveInterceptor (Status (evictionRequest w)) = true ->
     exists n, handoffs events w = firstn n order) /\
    (forall i class,
       ActiveInterceptorClass (Status (evictionRequest w)) = Some class ->
       nth_error order i = Some class ->
       exists n, handoffs events w = firstn n (skipn (S i) order)).
Proof.
  induction events as [|ev rest IH]; intros w Ho.
  { split; [intros _|intros i c _ _]; exists 0%nat; reflexivity. }
  cbn [handoffs].
  destruct (step ev w) as [w'|] eqn:Es;
    [|split; [intros _|intros i c _ _]; exists 0%nat; reflexivity].
  destruct (step_classStep _ _ _ Es) as [Hs Hc].
  fold (orderOf w) in Hc. rewrite Ho in Hc.
  assert (Ho' : orderOf w' = order) by (unfold orderOf in *; now rewrite Hs).
  destruct (IH w' Ho') as [IH0 IH1].
  destruct Hc as [Hc|[(Hu & first & Hf & Hc)|(n0 & current & next & Hb & Hne & Hn & Hn' & Hc)]].
  - rewrite (selected_same _ _ Hc). cbn [app]. split.
    + intros Hna. apply IH0. unfold interceptor.noActiveInterceptor in *. now rewrite Hc.
    + intros i c Ha Hi. apply (IH1 i c); [now rewrite Hc|assumption].
  - assert (Hfirst : first <> "").
    { intros ->. apply order_named. eapply nth_error_In; eassumption. }
    split.
    + intros _. destruct (IH1 0%nat first Hc Hf) as [n Hn].
      exists (S n). rewrite Hn.
      unfold selected. rewrite Hc.
      destruct (ActiveInterceptorClass (Status (evictionRequest w))) as [c|]; cbn.
      * subst c. replace (String.eqb "" first) with false
          by (symmetry; apply String.eqb_neq; congruence).
        cbn. rewrite (skipn_nth_error order 0 first Hf) at 2. reflexivity.
      * rewrite (skipn_nth_error order 0 first Hf) at 2. reflexivity.
    + intros i c Ha Hi. rewrite Ha in Hu. subst c. exfalso.
      apply order_named. eapply nth_error_In; eassumption.
  - split.
    + intros Hna. unfold interceptor.noActiveInterceptor in Hna. rewrite Hb in Hna.
      apply String.eqb_eq in Hna. congruence.
    + intros i c Ha Hi. rewrite Hb in Ha. inversion Ha; subst c.
      assert (n0 = i).
      { eapply NoDup_nth_error; [exact order_NoDup| |congruence].
        apply nth_error_Some. congruence. }
      subst n0.
      assert (next <> current).
      { intros ->.
        assert (S i = i); [|lia].
        eapply NoDup_nth_error; [exact order_NoDup| |congruence].
        apply nth_error_Some. congruence. }
      destruct (IH1 (S i) next Hc Hn') as [n Hn1].
      exists (S n). rewrite Hn1. rewrite (skipn_nth_error order (S i) next Hn').
      unfold selected. rewrite Hc, Hb. cbn [sameClass].
      replace (String.eqb current next) with false
        by (symmetry; apply String.eqb_neq; congruence).
      reflexivity.
Qed.

End HandOff.

Lemma sorted_classes_wf interceptors :
  NoDup (map InterceptorClass interceptors) ->
  ~ In "" (map InterceptorClass interceptors) ->
  NoDup (map InterceptorClass (interceptor.sortInterceptorsByPriority interceptors)) /\
  ~ In "" (map InterceptorClass (interceptor.sortInterceptorsByPriority interceptors)).
Proof.
  intros ND NE.
  pose proof (Permutation_map InterceptorClass
                (sortInterceptorsByPriority_Permutation interceptors)) as P.
  split.
  - apply (Permutation_NoDup (Permutation_sym P) ND).
  - intros H. apply NE. apply (Permutation_in _ P H).
Qed.

Lemma NoDup_firstn {A} n (l : list A) : NoDup l -> NoDup (firstn n l).
Proof.
  revert l. induction n as [|n IH]; intros [|x l] ND; cbn; try constructor.
  - inversion ND; subst. intros H. apply H1.
    rewrite <- (firstn_skipn n l). apply in_or_app. now left.
  - inversion ND; subst. now apply IH.
Qed.

(** C5. A request with at least one interceptor and no active class (absent
    or empty) is handed by one invocation of the handler to an interceptor
    whose priority no other interceptor exceeds, and that status is written.
    The candidate order is the interceptors arranged by descending priority;
    with the classes unique and non-empty, the classes a request is handed to
    along any run of reconciliations and interceptor writes form an initial
    segment of that order, so no class is selected twice. *)
Theorem handoff_follows_priority_order (w : World) :
  let er := evictionRequest w in
  let sorted := interceptor.sortInterceptorsByPriority (Interceptors (Spec er)) in
  Interceptors (Spec er) <> [] ->
  interceptor.noActiveInterceptor (Status er) = true ->
  (forall i : Clients,
     let o := interceptor.Handle i w in
     exists first,
       In first (Interceptors (Spec er)) /\
       (forall x, In x (Interceptors (Spec er)) -> Priority x <= Priority first) /\
       ActiveInterceptorClass (finalStatus o) = Some (InterceptorClass first) /\
       Status (evictionRequest (finalWorld o)) = finalStatus o /\
       statusWrites (finalWorld o) = statusWrites w ++ [evictionRequest (finalWorld o)] /\
       result o = Some (UpdateStatus i (evictionRequest (finalWorld o)))) /\
  Permutation sorted (Interceptors (Spec er)) /\
  descending sorted /\
  (NoDup (map InterceptorClass (Interceptors (Spec er))) ->
   ~ In "" (map InterceptorClass (Interceptors (Spec er))) ->
   forall events,
     (exists n, handoffs events w = firstn n (map InterceptorClass sorted)) /\
     NoDup (handoffs events w)).
Proof.
  intros er sorted HN Hna. split; [|split; [|split]].
  - intros i o.
    destruct sorted as [|first rest] eqn:Es.
    { exfalso. apply HN. apply length_zero_iff_nil.
      rewrite <- sortInterceptorsByPriority_length. fold er sorted. now rewrite Es. }
    destruct (sortInterceptorsByPriority_head _ _ _ Es) as [Hin Hmax].
    exists first. split; [exact Hin|]. split; [exact Hmax|].
    subst o. go_unfold. cbn. fold er. rewrite Hna. fold sorted. rewrite Es. cbn.
    case_match; cbn; repeat split; congruence.
  - apply sortInterceptorsByPriority_Permutation.
  - apply sortInterceptorsByPriority_descending.
  - intros ND NE events.
    destruct (sorted_classes_wf _ ND NE) as [ND' NE'].
    destruct (handoffs_walk _ ND' NE' events w eq_refl) as [H _].
    destruct (H Hna) as [n Hn]. split; [now exists n|].
    rewrite Hn. now apply NoDup_firstn.
Qed.

(** C4. When the active class is the last one of the candidate order and its
    completion flag is set, the invocation of the handler is the terminal
    eviction: it leaves the status, makes the calls and returns the result of
    [Perform]; with the target present the eviction call is issued, and when
    that call succeeds the condition found under "Evicted" has status "True".
    The active class stays where it is, and along any later run of
    reconciliations and interceptor writes the request is handed to no
    interceptor again. *)
Theorem exhausted_chain_is_evicted (i : Clients) (w : World) (front : list string)
    (class : string) :
  let er := evictionRequest w in
  let sorted := interceptor.sortInterceptorsByPriority (Interceptors (Spec er)) in
  let o := interceptor.Handle i w in
  let p := eviction.Perform i w in
  NoDup (map InterceptorClass (Interceptors (Spec er))) ->
  ~ In "" (map InterceptorClass (Interceptors (Spec er))) ->
  map InterceptorClass sorted = front ++ [class] ->
  ActiveInterceptorClass (Status er) = Some class ->
  ActiveInterceptorCompleted (Status er) = true ->
  (finalStatus o = finalStatus p /\ result o = result p /\
   statusWrites (finalWorld o) = statusWrites (finalWorld p) /\
   evictCalls (finalWorld o) = evictCalls (finalWorld p)) /\
  (forall podRef pod,
     PodRef (Target (Spec er)) = Some podRef ->
     PodLister i (metav1.Namespace (ObjectMeta er)) (Name podRef) = PodFound pod ->
     evictCalls (finalWorld o) =
       evictCalls w ++ [(corev1.Namespace pod, corev1.Name pod)] /\
     (EvictV1 i (corev1.Namespace pod) (corev1.Name pod) = None ->
      result o = Some None /\
      exists t,
        findCondition constants.ConditionTypeEvicted (Conditions (finalStatus o)) =
          Some {| metav1.Type_ := constants.ConditionTypeEvicted;
                  metav1.Status := metav1.ConditionTrue;
                  metav1.ObservedGeneration := 0;
                  metav1.LastTransitionTime := t;
                  metav1.Reason := constants.ReasonEvictionSucceeded;
                  metav1.Message := "Pod evicted successfully" |})) /\
  ActiveInterceptorClass (finalStatus o) = Some class /\
  ActiveInterceptorCompleted (finalStatus o) = true /\
  (forall events, handoffs events w = []).
Proof.
  intros er sorted o p ND NE Hlast Hc Hd.
  destruct (sorted_classes_wf _ ND NE) as [ND' NE']. fold er sorted in ND', NE'.
  assert (Hnth : nth_error (map InterceptorClass sorted) (List.length front) = Some class).
  { rewrite Hlast, nth_error_app2, Nat.sub_diag by lia. reflexivity. }
  assert (Hne : class <> "").
  { intros ->. apply NE'. eapply nth_error_In; eassumption. }
  assert (Hidx : interceptor.findInterceptorIndex sorted class = Z.of_nat (List.length front))
    by (apply findInterceptorIndex_unique; assumption).
  assert (Hlen : List.length sorted = S (List.length front)).
  { rewrite <- (length_map InterceptorClass), Hlast, last_length. reflexivity. }
  (* the invocation runs [Perform] after one log line *)
  assert (Hrun : o = eviction.Perform i
                   {| evictionRequest := evictionRequest w; statusWrites := statusWrites w;
                      evictCalls := evictCalls w;
                      logged := logged w ++
                        ["All interceptors completed, proceeding with direct eviction"] |}).
  { subst o. unfold interceptor.Handle, bind at 1, getRequest.
    unfold interceptor.noActiveInterceptor. fold er. rewrite Hc, Hd.
    replace (String.eqb class "") with false
      by (symmetry; apply String.eqb_neq; assumption).
    unfold interceptor.handleCompletedInterceptor, bind at 1, getRequest.
    cbn [evictionRequest]. fold er. rewrite Hc. fold sorted. rewrite Hidx, Hlen.
    replace ((0 <=? Z.of_nat (List.length front)) &&
             (Z.of_nat (List.length front) + 1 <? Z.of_nat (S (List.length front))))%bool
      with false by (symmetry; apply andb_false_iff; right; apply Z.ltb_ge; lia).
    reflexivity. }
  match type of Hrun with _ = eviction.Perform i ?w0 =>
    destruct (Perform_world i w0) as (Ho1 & Ho2 & Ho3 & Ho4) end.
  rewrite <- Hrun in Ho1, Ho2, Ho3, Ho4. cbn [evictionRequest statusWrites evictCalls] in *.
  destruct (Perform_world i w) as (Hp1 & Hp2 & Hp3 & Hp4). fold p er in Hp1, Hp2, Hp3, Hp4.
  fold er in Ho1, Ho2, Ho3, Ho4.
  assert (Hst : finalStatus o = performedStatus i er).
  { unfold finalStatus, finalWorld in *. destruct o; rewrite Ho1; reflexivity. }
  assert (Hsp : finalStatus p = performedStatus i er).
  { unfold finalStatus, finalWorld in *. destruct p; rewrite Hp1; reflexivity. }
  split; [|split; [|split; [|split]]].
  - repeat split; congruence.
  - intros podRef pod HP HL.
    rewrite Ho4, Ho2, Hst. unfold performedEvictions, performedResult, performedStatus.
    rewrite HP, HL. split; [reflexivity|]. intros HE. rewrite HE. split; [reflexivity|].
    eexists. unfold evictionRecorded.
    match goal with |- context [upserted ?n ?a ?b ?c ?d ?s] =>
      destruct (upserted_fields n a b c d s) as (Hcs & _) end.
    rewrite Hcs. apply upsert_find.
  - rewrite Hst, performedStatus_class. exact Hc.
  - rewrite Hst. unfold performedStatus, failureRecorded, evictionRecorded.
    repeat case_match; try exact Hd;
      repeat match goal with
      | |- context [upserted ?n ?a ?b ?c ?d ?s] =>
          let H := fresh in
          destruct (upserted_fields n a b c d s) as (_ & _ & H & _); rewrite H; clear H
      end; try exact Hd.
    now destruct (defaultCancellationPolicy_fields (status.incrementCounter (Status er)))
      as (_ & _ & -> & _).
  - intros events.
    destruct (handoffs_walk _ ND' NE' events w eq_refl) as [_ H].
    destruct (H (List.length front) class Hc Hnth) as [n Hn].
    rewrite Hn, skipn_all2, firstn_nil; [reflexivity|].
    rewrite length_map, Hlen. lia.
Qed.

(** ** The heartbeat deadline *)

Lemma int64_small z :
  -9223372036854775808 <= z <= 9223372036854775807 -> int64 z = z.
Proof. unfold int64. intros H. rewrite Z.mod_small by lia. lia. Qed.

(** The test the code makes, saturation and wrap-around included, is the
    comparison of the elapsed time with the deadline. *)
Lemma exceededDeadline_spec now er :
  (forall seconds, HeartbeatDeadlineSeconds (Spec er) = Some seconds -> in_int32 seconds) ->
  (exists deadline, interceptor.exceededDeadline now er = Some deadline) <->
  deadlinePassed now er.
Proof.
  intros T. unfold interceptor.exceededDeadline, deadlinePassed.
  destruct (HeartbeatDeadlineSeconds (Spec er)) as [seconds|];
    [|split; [intros [d H]; discriminate|intros (s & h & H & _); discriminate]].
  destruct (HeartbeatTime (Status er)) as [heartbeat|];
    [|split; [intros [d H]; discriminate|intros (s & h & _ & H & _); discriminate]].
  specialize (T seconds eq_refl). unfold in_int32, MinInt32, MaxInt32 in T.
  rewrite int64_small by (unfold time.Second; lia).
  unfold time.Since, time.Sub, time.maxDuration, time.minDuration, time.Second.
  split.
  - intros [d H]. exists seconds, heartbeat. repeat split.
    destruct (9223372036854775807 <? now - heartbeat) eqn:E1.
    + apply Z.ltb_lt in E1. unfold time.Second. lia.
    + destruct (now - heartbeat <? -9223372036854775808) eqn:E2.
      * destruct (seconds * 1000000000 <? -9223372036854775808) eqn:E3;
          [apply Z.ltb_lt in E3; lia|discriminate].
      * destruct (seconds * 1000000000 <? now - heartbeat) eqn:E3; [|discriminate].
        apply Z.ltb_lt in E3. unfold time.Second. lia.
  - intros (s & h & Hs & Hh & Hgt). inversion Hs; inversion Hh; subst s h.
    unfold time.Second in Hgt. exists (seconds * 1000000000).
    destruct (9223372036854775807 <? now - heartbeat) eqn:E1.
    + replace (seconds * 1000000000 <? 9223372036854775807) with true
        by (symmetry; apply Z.ltb_lt; lia). reflexivity.
    + apply Z.ltb_ge in E1.
      replace (now - heartbeat <? -9223372036854775808) with false
        by (symmetry; apply Z.ltb_ge; lia).
      replace (seconds * 1000000000 <? now - heartbeat) with true
        by (symmetry; apply Z.ltb_lt; lia). reflexivity.
Qed.

(** C3. For a request owned by a class whose completion flag is not set: when
    [HeartbeatTime] is set and more than [HeartbeatDeadlineSeconds] seconds
    have passed since, the invocation sets [ActiveInterceptorCompleted] and
    nothing else, for the same active class, writes that status once and
    returns what the write returned; when the deadline has not passed, the
    request is left as it was, nothing is written and no error is returned. *)
Theorem heartbeat_deadline_marks_completed (i : Clients) (w : World) (class : string) :
  let er := evictionRequest w in
  let o := interceptor.Handle i w in
  ActiveInterceptorClass (Status er) = Some class ->
  class <> "" ->
  ActiveInterceptorCompleted (Status er) = false ->
  (forall seconds, HeartbeatDeadlineSeconds (Spec er) = Some seconds -> in_int32 seconds) ->
  (deadlinePassed (Now i) er ->
     finalStatus o = set_ActiveInterceptorCompleted true (Status er) /\
     ActiveInterceptorCompleted (finalStatus o) = true /\
     ActiveInterceptorClass (finalStatus o) = Some class /\
     Status (evictionRequest (finalWorld o)) = finalStatus o /\
     statusWrites (finalWorld o) = statusWrites w ++ [evictionRequest (finalWorld o)] /\
     result o = Some (UpdateStatus i (evictionRequest (finalWorld o)))) /\
  (~ deadlinePassed (Now i) er ->
     evictionRequest (finalWorld o) = er /\
     statusWrites (finalWorld o) = statusWrites w /\
     evictCalls (finalWorld o) = evictCalls w /\
     result o = Some None).
Proof.
  intros er o Hc Hne Hd T. subst o.
  assert (Hrun : interceptor.Handle i w = interceptor.checkInterceptorTimeout i w).
  { unfold interceptor.Handle, bind, getRequest, interceptor.noActiveInterceptor.
    fold er. rewrite Hc, Hd.
    replace (String.eqb class "") with false
      by (symmetry; apply String.eqb_neq; assumption).
    reflexivity. }
  pose proof (exceededDeadline_spec (Now i) er T) as S.
  split.
  - intros P. apply S in P. destruct P as [deadline P].
    rewrite Hrun. go_unfold. cbn. fold er. rewrite P. cbn. fold er. rewrite Hc. cbn.
    case_match; cbn; fold er; rewrite ?Hc; repeat split; try reflexivity;
      unfold er; congruence.
  - intros N.
    assert (P : interceptor.exceededDeadline (Now i) er = None).
    { destruct (interceptor.exceededDeadline (Now i) er) as [d|] eqn:E; [|reflexivity].
      exfalso. apply N, S. now exists d. }
    rewrite Hrun. go_unfold. cbn. fold er. rewrite P. cbn. fold er. rewrite Hc. cbn.
    repeat split; reflexivity.
Qed.

(** ** The hand-off and the completion flag *)

(** A hand-off to the next candidate writes the class and nothing else: the
    completion flag of the interceptor that released the request is still
    set for the one that receives it. *)
Lemma handoff_status i er class n next :
  let sorted := interceptor.sortInterceptorsByPriority (Interceptors (Spec er)) in
  NoDup (map InterceptorClass (Interceptors (Spec er))) ->
  ActiveInterceptorClass (Status er) = Some class ->
  class <> "" ->
  ActiveInterceptorCompleted (Status er) = true ->
  nth_error (map InterceptorClass sorted) n = Some class ->
  nth_error sorted (S n) = Some next ->
  handledStatus i er =
    set_ActiveInterceptorClass (Some (InterceptorClass next)) (Status er).
Proof.
  intros sorted ND Hc Hne Hd Hn Hs.
  assert (ND' : NoDup (map InterceptorClass sorted)).
  { apply (Permutation_NoDup
             (Permutation_sym
                (Permutation_map InterceptorClass
                   (sortInterceptorsByPriority_Permutation (Interceptors (Spec er)))))).
    assumption. }
  pose proof (findInterceptorIndex_unique sorted n class ND' Hn) as Hi.
  assert (Hlen : (S n < List.length sorted)%nat) by (apply nth_error_Some; congruence).
  unfold handledStatus, interceptor.noActiveInterceptor. fold sorted.
  rewrite Hc, Hd, Hi.
  replace (String.eqb class "") with false
    by (symmetry; apply String.eqb_neq; assumption).
  replace ((0 <=? Z.of_nat n) && (Z.of_nat n + 1 <? Z.of_nat (List.length sorted)))%bool
    with true
    by (symmetry; apply andb_true_iff; split; [apply Z.leb_le|apply Z.ltb_lt]; lia).
  replace (Z.to_nat (Z.of_nat n + 1)) with (S n) by lia.
  now rewrite Hs.
Qed.

(** C1, on Scenario B. With interceptors a:10 and b:20, active class "b" and
    the completion flag set, one invocation of the handler makes "a" the
    active class, as the claim says, but the completion flag is still set
    afterwards, in the request and in the status the invocation writes. *)
Theorem scenarioB_handoff_keeps_completed_flag :
  let i := Scenario.clients None None 1000 in
  let w := Scenario.world
             (Scenario.request [Scenario.interceptorA; Scenario.interceptorB]
                (Scenario.owned "b" true None)) in
  let o := interceptor.Handle i w in
  result o = Some None /\
  ActiveInterceptorClass (finalStatus o) = Some "a" /\
  ActiveInterceptorCompleted (finalStatus o) = true /\
  map (fun er => (ActiveInterceptorClass (Status er), ActiveInterceptorCompleted (Status er)))
      (statusWrites (finalWorld o)) = [(Some "a", true)].
Proof. vm_compute. repeat split. Qed.

(** What follows from the flag staying set: with a third interceptor c:5, the
    reconciliation after the hand-off to "a" hands the request on to "c"
    although "a" never reported anything. *)
Example scenarioB_next_interceptor_is_skipped :
  let r := Scenario.clients None None 1000 in
  let w := Scenario.world
             (Scenario.request
                [Scenario.interceptorA; Scenario.interceptorB; Scenario.interceptorC]
                (Scenario.owned "b" true None)) in
  handoffs [Reconciliation r; Reconciliation r] w = ["a"; "c"].
Proof. vm_compute. reflexivity. Qed.

(** ** Errors of the status writes *)

(** C9, at a request without interceptors whose target exists. The eviction
    call succeeds and the write of the "Evicted" condition fails with a
    conflict: the performer, and the Dispatcher with it, return no error.
    When the eviction call fails and the write of the failure bookkeeping
    fails too, the error returned is the eviction's; the write's error is
    dropped. *)
Theorem status_write_failure_is_not_returned :
  let w := Scenario.world (Scenario.request [] Scenario.defaulted) in
  let r := Scenario.clients None (Some Scenario.conflict) 1000 in
  let o := reconciler.ReconcileEvictionRequest r w in
  let r' := Scenario.clients (Some Scenario.blocked) (Some Scenario.conflict) 1000 in
  let o' := reconciler.ReconcileEvictionRequest r' w in
  map (UpdateStatus r) (statusWrites (finalWorld o)) = [Some Scenario.conflict] /\
  result o = Some None /\
  result (eviction.Perform r w) = Some None /\
  map (UpdateStatus r') (statusWrites (finalWorld o')) = [Some Scenario.conflict] /\
  result o' = Some (Some (Errorf "failed to evict pod" Scenario.blocked)).
Proof. vm_compute. repeat split. Qed.

(** The general shape: what [Perform] returns is a function of the target
    lookup and of the eviction call alone. *)
Lemma Perform_result_ignores_status_writes e e' w :
  PodLister e' = PodLister e -> EvictV1 e' = EvictV1 e ->
  result (eviction.Perform e' w) = result (eviction.Perform e w).
Proof.
  intros HL HE.
  destruct (Perform_world e w) as (_ & -> & _).
  destruct (Perform_world e' w) as (_ & -> & _).
  unfold performedResult. now rewrite HL, HE.
Qed.

(** ** The failure counter *)

(** C7, at the largest counter value. A request without interceptors whose
    failure counter is 2147483647 meets one more failed eviction: the [int32]
    increment wraps and the counter is -2147483648 afterwards, lower than
    before. *)
Theorem failed_eviction_counter_wraps :
  let st := set_PodEvictionStatus
              (Some {| FailedAPIEvictionCounter := 2147483647 |}) Scenario.defaulted in
  let w := Scenario.world (Scenario.request [] st) in
  let r := Scenario.clients (Some Scenario.blocked) None 1000 in
  let o := reconciler.ReconcileEvictionRequest r w in
  failedCounter (Status (evictionRequest w)) = 2147483647 /\
  failedCounter (finalStatus o) = -2147483648 /\
  failedCounter (finalStatus o) < failedCounter (Status (evictionRequest w)).
Proof. vm_compute. repeat split. Qed.

Lemma performedStatus_counter e er :
  PodEvictionStatus_ (performedStatus e er) = PodEvictionStatus_ (Status er) \/
  PodEvictionStatus_ (performedStatus e er) =
    Some {| FailedAPIEvictionCounter := int32 (failedCounter (Status er) + 1) |}.
Proof.
  unfold performedStatus, evictionRecorded.
  repeat case_match; try (now left); try (right; apply failureRecorded_counter);
    left;
    match goal with |- context [upserted ?n ?a ?b ?c ?d ?s] =>
      now destruct (upserted_fields n a b c d s) as (_ & _ & _ & _ & -> & _)
    end.
Qed.

Lemma handledStatus_counter i er :
  PodEvictionStatus_ (handledStatus i er) = PodEvictionStatus_ (Status er) \/
  PodEvictionStatus_ (handledStatus i er) =
    Some {| FailedAPIEvictionCounter := int32 (failedCounter (Status er) + 1) |}.
Proof.
  unfold handledStatus.
  repeat case_match; try (now left). apply performedStatus_counter.
Qed.

(** Whatever the Dispatcher does, the counter substructure is either left as
    it was or holds the [int32] successor of the counter: the increment of
    [IncrementFailedEvictionCounter] is the only write to it. *)
Lemma reconciledStatus_counter r er :
  PodEvictionStatus_ (reconciledStatus r er) = PodEvictionStatus_ (Status er) \/
  PodEvictionStatus_ (reconciledStatus r er) =
    Some {| FailedAPIEvictionCounter := int32 (failedCounter (Status er) + 1) |}.
Proof.
  assert (D : PodEvictionStatus_ (Status (defaultedRequest er)) = PodEvictionStatus_ (Status er)).
  { unfold defaultedRequest. now case_match. }
  assert (D' : failedCounter (Status (defaultedRequest er)) = failedCounter (Status er)).
  { unfold failedCounter. now rewrite D. }
  unfold reconciledStatus. repeat case_match; try (now left).
  all: first [ left; exact D
             | rewrite <- D, <- D'; apply handledStatus_counter
             | rewrite <- D, <- D'; apply performedStatus_counter ].
Qed.

(** Below the largest [int32] the counter does not decrease over a
    reconciliation. *)
Lemma counter_nondecreasing_below_max r w :
  let o := reconciler.ReconcileEvictionRequest r w in
  in_int32 (failedCounter (Status (evictionRequest w))) ->
  failedCounter (Status (evictionRequest w)) < MaxInt32 ->
  failedCounter (Status (evictionRequest w)) <= failedCounter (finalStatus o).
Proof.
  intros o R L.
  assert (H : finalStatus o = reconciledStatus r (evictionRequest w)).
  { pose proof (ReconcileEvictionRequest_world r w) as H. fold o in H.
    unfold finalStatus, finalWorld in *. destruct o; rewrite H; reflexivity. }
  rewrite H. unfold failedCounter at 2.
  destruct (reconciledStatus_counter r (evictionRequest w)) as [-> | ->].
  - unfold failedCounter. lia.
  - cbn. rewrite int32_small; unfold in_int32, MinInt32, MaxInt32 in *; lia.
Qed.

(** ** The nil pod reference *)

Lemma count_occ_snoc_other (l : list string) (m msg : string) :
  m <> msg ->
  count_occ string_dec (l ++ [m]) msg = count_occ string_dec l msg.
Proof.
  intros N. rewrite count_occ_app. cbn.
  destruct (string_dec m msg); [contradiction|lia].
Qed.

Lemma count_occ_snoc_same (l : list string) (msg : string) :
  count_occ string_dec (l ++ [msg]) msg = S (count_occ string_dec l msg).
Proof.
  rewrite count_occ_app. cbn. destruct (string_dec msg msg); [lia|contradiction].
Qed.

Ltac other_message :=
  rewrite count_occ_snoc_other by (unfold nilPodRefMessage; discriminate).

(** C10. [ReconcileEvictionRequest] panics exactly when [Spec.Target.PodRef]
    is nil, and then at once, before any call or write; so whatever it does,
    it never logs the failed-precondition message of [Perform]'s nil branch.
    [Perform] called on its own with a nil reference does take that branch:
    it logs the message, writes the "Ready" condition with status "False"
    and returns the error. *)
Theorem nil_PodRef_panics_the_Dispatcher (r : Clients) (w : World) :
  let er := evictionRequest w in
  let o := reconciler.ReconcileEvictionRequest r w in
  let p := eviction.Perform r w in
  (result o = None <-> PodRef (Target (Spec er)) = None) /\
  (PodRef (Target (Spec er)) = None -> o = Panicked w) /\
  count_occ string_dec (logged (finalWorld o)) nilPodRefMessage =
    count_occ string_dec (logged w) nilPodRefMessage /\
  (PodRef (Target (Spec er)) = None ->
     result p = Some (Some (ErrNew "pod reference cannot be nil")) /\
     count_occ string_dec (logged (finalWorld p)) nilPodRefMessage =
       S (count_occ string_dec (logged w) nilPodRefMessage) /\
     exists t,
       findCondition constants.ConditionTypeReady (Conditions (finalStatus p)) =
         Some {| metav1.Type_ := constants.ConditionTypeReady;
                 metav1.Status := metav1.ConditionFalse;
                 metav1.ObservedGeneration := 0;
                 metav1.LastTransitionTime := t;
                 metav1.Reason := constants.ReasonPodNotFound;
                 metav1.Message := "EvictionRequest.Spec.Target.PodRef cannot be nil" |}).
Proof.
  intros er o p. split; [apply ReconcileEvictionRequest_panics|]. split; [|split].
  - intros H. subst o. unfold reconciler.ReconcileEvictionRequest, bind, getRequest.
    fold er. now rewrite H.
  - subst o. go_unfold. unfold interceptor.noActiveInterceptor. cbn.
    repeat (case_match; cbn); repeat other_message; reflexivity.
  - intros H. subst p.
    destruct (Perform_world r w) as (Hw & Hr & _). fold er in Hw, Hr.
    unfold performedResult, performedStatus in *. rewrite H in *.
    split; [exact Hr|]. split.
    + go_unfold. cbn. fold er. rewrite H. cbn.
      case_match; cbn; repeat other_message; unfold nilPodRefMessage;
        apply count_occ_snoc_same.
    + eexists.
      assert (Hs : finalStatus (eviction.Perform r w) =
                   upserted (Now r) constants.ConditionTypeReady metav1.ConditionFalse
                     constants.ReasonPodNotFound
                     "EvictionRequest.Spec.Target.PodRef cannot be nil" (Status er)).
      { unfold finalStatus, finalWorld in *.
        destruct (eviction.Perform r w); rewrite Hw; reflexivity. }
      rewrite Hs.
      match goal with |- context [upserted ?n ?a ?b ?c ?d ?s] =>
        destruct (upserted_fields n a b c d s) as (Hcs & _) end.
      rewrite Hcs. apply upsert_find.
Qed.

(** ** Reconciling twice *)

Section UpsertTwice.

Variables (now1 now2 : Z) (ty s_ rs msg : string).

Let c1 := newCondition now1 ty s_ rs msg.
Let c2 := newCondition now2 ty s_ rs msg.

Lemma replaceFirst_twice conditions conditions' :
  status.replaceFirst conditions c1 = Some conditions' ->
  status.replaceFirst conditions' c2 = Some conditions'.
Proof.
  revert conditions'.
  induction conditions as [|x l IH]; cbn; intros l' H; [discriminate|].
  destruct (String.eqb (metav1.Type_ x) ty) eqn:E.
  - inversion H; subst l'. cbn. rewrite String.eqb_refl, String.eqb_refl. cbn.
    reflexivity.
  - destruct (status.replaceFirst l c1) as [l0|] eqn:R; cbn in H; [|discriminate].
    inversion H; subst l'. cbn. rewrite E. now rewrite (IH l0 eq_refl).
Qed.

Lemma replaceFirst_appended conditions :
  status.replaceFirst conditions c1 = None ->
  status.replaceFirst (conditions ++ [c1]) c2 = Some (conditions ++ [c1]).
Proof.
  induction conditions as [|x l IH]; cbn.
  - intros _. rewrite String.eqb_refl, String.eqb_refl. reflexivity.
  - destruct (String.eqb (metav1.Type_ x) ty) eqn:E; [discriminate|].
    destruct (status.replaceFirst l c1) eqn:R; cbn; [discriminate|].
    intros _. now rewrite (IH eq_refl).
Qed.

(** Merging the same type, status, reason and message a second time, at any
    later clock value, changes nothing: no entry is added and the transition
    time stays. *)
Lemma upsert_twice conditions :
  status.upsert (status.upsert conditions c1) c2 = status.upsert conditions c1.
Proof.
  unfold status.upsert at 2 3.
  destruct (status.replaceFirst conditions c1) as [l'|] eqn:R; unfold status.upsert.
  - now rewrite (replaceFirst_twice _ _ R).
  - now rewrite (replaceFirst_appended _ R).
Qed.

Lemma upserted_twice st :
  upserted now2 ty s_ rs msg (upserted now1 ty s_ rs msg st) =
  upserted now1 ty s_ rs msg st.
Proof.
  unfold upserted at 1.
  destruct (upserted_fields now1 ty s_ rs msg st) as (Hc & _).
  rewrite Hc. fold c1 c2. rewrite upsert_twice. fold c1 in Hc. rewrite <- Hc.
  replace (set_Conditions (Conditions (upserted now1 ty s_ rs msg st))
             (upserted now1 ty s_ rs msg st))
    with (upserted now1 ty s_ rs msg st)
    by (now destruct (upserted now1 ty s_ rs msg st)).
  unfold upserted. apply defaultCancellationPolicy_idem.
Qed.

End UpsertTwice.

Lemma performedStatus_twice lister now1 now2 er :
  performedStatus (obliging lister now2)
    (with_Status (performedStatus (obliging lister now1) er) er) =
  performedStatus (obliging lister now1) er.
Proof.
  unfold performedStatus, evictionRecorded. cbn.
  destruct (PodRef (Target (Spec er))) as [podRef|]; [|apply upserted_twice].
  destruct (lister _ _); try reflexivity. apply upserted_twice.
Qed.

Lemma performedStatus_completed e er :
  ActiveInterceptorCompleted (performedStatus e er) = ActiveInterceptorCompleted (Status er).
Proof.
  unfold performedStatus, failureRecorded, evictionRecorded.
  repeat case_match; try reflexivity;
    repeat match goal with
    | |- context [upserted ?n ?a ?b ?c ?d ?s] =>
        let H := fresh in
        destruct (upserted_fields n a b c d s) as (_ & _ & H & _); rewrite H; clear H
    end;
    try reflexivity.
  now destruct (defaultCancellationPolicy_fields (status.incrementCounter (Status er)))
    as (_ & _ & -> & _).
Qed.

Lemma performedStatus_policy e er :
  EvictionRequestCancellationPolicy (Status er) <> "" ->
  EvictionRequestCancellationPolicy (performedStatus e er) =
  EvictionRequestCancellationPolicy (Status er).
Proof.
  intros N. apply String.eqb_neq in N.
  unfold performedStatus, failureRecorded, evictionRecorded.
  repeat case_match; try reflexivity;
    repeat match goal with
    | |- context [upserted ?n ?a ?b ?c ?d ?s] =>
        let H := fresh in
        destruct (upserted_fields n a b c d s) as (_ & _ & _ & _ & _ & H);
        rewrite H; clear H
    end;
    rewrite ?N; try reflexivity.
  destruct (defaultCancellationPolicy_fields (status.incrementCounter (Status er)))
    as (_ & _ & _ & _ & _ & H).
  rewrite H. unfold status.incrementCounter. cbn. rewrite N. now rewrite N.
Qed.

Lemma handledStatus_policy i er :
  EvictionRequestCancellationPolicy (Status er) <> "" ->
  EvictionRequestCancellationPolicy (handledStatus i er) =
  EvictionRequestCancellationPolicy (Status er).
Proof.
  intros N. unfold handledStatus. repeat case_match; try reflexivity.
  now apply performedStatus_policy.
Qed.

Lemma defaultedRequest_policy er :
  EvictionRequestCancellationPolicy (Status (defaultedRequest er)) <> "".
Proof.
  unfold defaultedRequest.
  destruct (String.eqb (EvictionRequestCancellationPolicy (Status er)) "") eqn:E; cbn.
  - discriminate.
  - now apply String.eqb_neq.
Qed.

Lemma defaultedRequest_fixed er :
  EvictionRequestCancellationPolicy (Status er) <> "" -> defaultedRequest er = er.
Proof.
  intros N. apply String.eqb_neq in N. unfold defaultedRequest. now rewrite N.
Qed.

Lemma exceededDeadline_with_class now er class :
  interceptor.exceededDeadline now
    (with_Status (set_ActiveInterceptorClass class (Status er)) er) =
  interceptor.exceededDeadline now er.
Proof. reflexivity. Qed.

Lemma noSuccessor_stops er class :
  noSuccessor er class ->
  let sorted := interceptor.sortInterceptorsByPriority (Interceptors (Spec er)) in
  ((0 <=? interceptor.findInterceptorIndex sorted class) &&
   (interceptor.findInterceptorIndex sorted class + 1 <? Z.of_nat (List.length sorted)))%bool
  = false.
Proof.
  intros NS sorted. subst sorted. apply not_true_is_false. intros H.
  apply andb_prop in H. destruct H as [H1 H2].
  apply Z.leb_le in H1. apply Z.ltb_lt in H2.
  pose proof (findInterceptorIndexFrom_nth 0
                (interceptor.sortInterceptorsByPriority (Interceptors (Spec er))) class) as F.
  cbn zeta in F.
  unfold interceptor.findInterceptorIndex in *. rewrite Z.sub_0_r in F.
  specialize (F ltac:(lia) ltac:(lia)).
  apply NS in F. apply nth_error_None in F. lia.
Qed.

Lemma handledStatus_twice lister now1 now2 er :
  Interceptors (Spec er) <> [] ->
  quiet now1 er -> quiet now2 er ->
  handledStatus (obliging lister now2)
    (with_Status (handledStatus (obliging lister now1) er) er) =
  handledStatus (obliging lister now1) er.
Proof.
  intros HN [S1|[[Hd1 He1]|(Hd1 & c & Hc & Hne & NS)]] S2; [contradiction| |].
  - destruct S2 as [S2|[[_ He2]|(Hd2 & _)]]; [contradiction| |congruence].
    unfold handledStatus at 2 3. unfold interceptor.noActiveInterceptor.
    rewrite Hd1. cbn [Now obliging]. rewrite He1.
    destruct (ActiveInterceptorClass (Status er)) as [c|] eqn:Hc.
    + destruct (String.eqb c "") eqn:E0.
      * destruct (interceptor.sortInterceptorsByPriority (Interceptors (Spec er)))
          as [|first rest] eqn:Es.
        -- rewrite with_Status_same. unfold handledStatus, interceptor.noActiveInterceptor.
           now rewrite Hc, E0, Es.
        -- unfold handledStatus, interceptor.noActiveInterceptor. cbn.
           rewrite Es, Hd1. cbn [Now obliging].
           rewrite exceededDeadline_with_class, He2.
           destruct (String.eqb (InterceptorClass first) ""); reflexivity.
      * rewrite with_Status_same. unfold handledStatus, interceptor.noActiveInterceptor.
        rewrite Hc, E0, Hd1. cbn [Now obliging]. now rewrite He2.
    + destruct (interceptor.sortInterceptorsByPriority (Interceptors (Spec er)))
        as [|first rest] eqn:Es.
      * rewrite with_Status_same. unfold handledStatus, interceptor.noActiveInterceptor.
        now rewrite Hc, Es.
      * unfold handledStatus, interceptor.noActiveInterceptor. cbn.
        rewrite Es, Hd1. cbn [Now obliging].
        rewrite exceededDeadline_with_class, He2.
        destruct (String.eqb (InterceptorClass first) ""); reflexivity.
  - pose proof (noSuccessor_stops er c NS) as Hstop. cbn zeta in Hstop.
    assert (E0 : String.eqb c "" = false) by (now apply String.eqb_neq).
    assert (H1 : handledStatus (obliging lister now1) er =
                 performedStatus (obliging lister now1) er).
    { unfold handledStatus, interceptor.noActiveInterceptor.
      now rewrite Hc, E0, Hd1, Hstop. }
    rewrite H1.
    unfold handledStatus, interceptor.noActiveInterceptor. cbn [Status Spec with_Status].
    rewrite performedStatus_class, performedStatus_completed, Hc, E0, Hd1, Hstop.
    apply performedStatus_twice.
Qed.

Lemma reconciledStatus_twice lister now1 now2 er :
  (targetPresent lister er -> quiet now1 er /\ quiet now2 er) ->
  reconciledStatus (obliging lister now2)
    (with_Status (reconciledStatus (obliging lister now1) er) er) =
  reconciledStatus (obliging lister now1) er.
Proof.
  intros S.
  assert (Hs : forall now, quiet now er -> quiet now (defaultedRequest er)).
  { intros now S0. unfold defaultedRequest.
    destruct (String.eqb (EvictionRequestCancellationPolicy (Status er)) ""); exact S0. }
  assert (Hsp : Spec (defaultedRequest er) = Spec er /\
                ObjectMeta (defaultedRequest er) = ObjectMeta er).
  { unfold defaultedRequest.
    destruct (String.eqb (EvictionRequestCancellationPolicy (Status er)) ""); now split. }
  destruct Hsp as [Hsp Hom].
  assert (Hw : forall st, with_Status st er = with_Status st (defaultedRequest er)).
  { intros st. unfold with_Status. now rewrite Hsp, Hom. }
  unfold reconciledStatus at 2 3. cbn [PodLister UpdateStatus obliging].
  destruct (PodRef (Target (Spec er))) as [podRef|] eqn:HP;
    [|rewrite with_Status_same; unfold reconciledStatus; now rewrite HP].
  destruct (lister (metav1.Namespace (ObjectMeta er)) (Name podRef)) as [pod| |err] eqn:HL;
    try (rewrite with_Status_same; unfold reconciledStatus; cbn [PodLister obliging];
         now rewrite HP, HL).
  destruct (negb (String.eqb (corev1.UID pod) (UID podRef))) eqn:HU;
    [rewrite with_Status_same; unfold reconciledStatus; cbn [PodLister obliging];
     now rewrite HP, HL, HU|].
  destruct S as [S1 S2].
  { exists podRef, pod. repeat split; try assumption.
    apply negb_false_iff in HU. now apply String.eqb_eq. }
  rewrite andb_false_r.
  pose proof (defaultedRequest_policy er) as Hpol.
  unfold reconciledStatus. cbn [PodLister UpdateStatus obliging Spec ObjectMeta with_Status].
  rewrite HP, HL, HU, andb_false_r.
  destruct (0 <? Z.of_nat (List.length (Interceptors (Spec er)))) eqn:Hlen.
  - rewrite defaultedRequest_fixed
      by (cbn [Status with_Status]; rewrite handledStatus_policy; assumption).
    rewrite Hw.
    assert (HN : Interceptors (Spec (defaultedRequest er)) <> []).
    { rewrite Hsp. intros E. rewrite E in Hlen. discriminate. }
    apply handledStatus_twice; auto.
  - rewrite defaultedRequest_fixed
      by (cbn [Status with_Status]; rewrite performedStatus_policy; assumption).
    rewrite Hw. apply performedStatus_twice.
Qed.

Lemma settled_quiet now er :
  (forall seconds, HeartbeatDeadlineSeconds (Spec er) = Some seconds -> in_int32 seconds) ->
  settled now er -> quiet now er.
Proof.
  intros T [S|[[Hd N]|S]]; [now left| |now right; right].
  right; left. split; [exact Hd|].
  destruct (interceptor.exceededDeadline now er) as [d|] eqn:E; [|reflexivity].
  exfalso. apply N. apply (exceededDeadline_spec now er T). now exists d.
Qed.

(** C2 as stated fails where the eviction call fails: a request without
    interceptors whose target is guarded by a disruption budget has the
    failure counter at 1 after one reconciliation and at 2 after two, with
    nothing changed in between. *)
Lemma reconciling_twice_counts_two_failures :
  let r := Scenario.clients (Some Scenario.blocked) None 1000 in
  let w := Scenario.world (Scenario.request [] Scenario.defaulted) in
  let once := Status (evictionRequest (run [Reconciliation r] w)) in
  let twice := Status (evictionRequest (run [Reconciliation r; Reconciliation r] w)) in
  failedCounter once = 1 /\ failedCounter twice = 2 /\ twice <> once.
Proof.
  cbn zeta. split; [vm_compute; reflexivity|]. split; [vm_compute; reflexivity|].
  intros H. apply (f_equal failedCounter) in H. vm_compute in H. discriminate H.
Qed.

(** It also fails, as the design has it, at a stalled interceptor: the first
    reconciliation after the deadline sets the completion flag, the second
    one acts on the flag and hands the request on. *)
Example reconciling_twice_marks_then_hands_on :
  let r := Scenario.clients None None (2000 * time.Second) in
  let w := Scenario.world
             (Scenario.request [Scenario.interceptorA; Scenario.interceptorB]
                (Scenario.owned "b" false (Some 0))) in
  let once := Status (evictionRequest (run [Reconciliation r] w)) in
  let twice := Status (evictionRequest (run [Reconciliation r; Reconciliation r] w)) in
  (ActiveInterceptorClass once, ActiveInterceptorCompleted once) = (Some "b", true) /\
  ActiveInterceptorClass twice = Some "a".
Proof. vm_compute. split; reflexivity. Qed.

(** C2, amended. With the eviction call and the status writes succeeding and
    the collaborators answering the second invocation as the first (the clock
    may have advanced), invoking the Dispatcher twice leaves the status that
    invoking it once leaves, whenever the target is absent or replaced, or
    the request is settled for both clock values: it has no interceptors, or
    its completion flag is unset and the heartbeat deadline has not passed,
    or the flag is set for the last candidate.  No condition is added or
    re-timed, no counter moves and nothing advances on the second
    invocation. *)
Theorem reconciling_twice_when_settled
    (lister : string -> string -> PodGet) (now1 now2 : Z) (w : World) :
  let er := evictionRequest w in
  let r1 := obliging lister now1 in
  let r2 := obliging lister now2 in
  (forall seconds, HeartbeatDeadlineSeconds (Spec er) = Some seconds -> in_int32 seconds) ->
  (targetPresent lister er -> settled now1 er /\ settled now2 er) ->
  Status (evictionRequest (run [Reconciliation r1; Reconciliation r2] w)) =
  Status (evictionRequest (run [Reconciliation r1] w)).
Proof.
  intros er r1 r2 T S. cbn [run step].
  pose proof (ReconcileEvictionRequest_world r1 w) as H1.
  destruct (reconciler.ReconcileEvictionRequest r1 w) as [a w1|w1]; [|reflexivity].
  cbn [finalWorld] in H1.
  pose proof (ReconcileEvictionRequest_world r2 w1) as H2.
  destruct (reconciler.ReconcileEvictionRequest r2 w1) as [b w2|w2]; [|reflexivity].
  cbn [finalWorld] in H2. rewrite H2, H1. cbn [Status with_Status].
  fold er. subst r1 r2.
  apply reconciledStatus_twice.
  intros P. destruct (S P) as [S1 S2]. split; now apply settled_quiet.
Qed.

(** ** The theorems at work on the scenarios *)

(** A second failed eviction, at clock value 1000, on a status that holds the
    first one from clock value 500: the "Evicted" condition keeps its
    transition time and stays the only one of its type. *)
Lemma UpsertCondition_merges_by_type_witness :
  let w := Scenario.world (Scenario.request [] Scenario.failedOnce) in
  let o := status.UpsertCondition (Scenario.clients None None 1000)
             "Evicted" "False" "EvictionFailed" "Failed to evict pod" w in
  NoDup (map metav1.Type_ (Conditions (Status (evictionRequest w)))) /\
  option_map metav1.LastTransitionTime
    (findCondition "Evicted" (Conditions (finalStatus o))) = Some 500 /\
  NoDup (map metav1.Type_ (Conditions (finalStatus o))).
Proof.
  cbn zeta.
  assert (H : NoDup (map metav1.Type_
                       (Conditions (Status (evictionRequest
                          (Scenario.world (Scenario.request [] Scenario.failedOnce)))))))
    by (repeat constructor; cbn; tauto).
  destruct (UpsertCondition_merges_by_type (Scenario.clients None None 1000)
              "Evicted" "False" "EvictionFailed" "Failed to evict pod"
              (Scenario.world (Scenario.request [] Scenario.failedOnce)) H)
    as (Hf & _ & Hn & _).
  split; [exact H|]. split; [|exact Hn].
  rewrite Hf. reflexivity.
Defined.

(** Scenario E: the eviction is blocked by a disruption budget. *)
Lemma Perform_records_failed_eviction_witness :
  let e := Scenario.clients (Some Scenario.blocked) None 1000 in
  let w := Scenario.world (Scenario.request [] Scenario.failedOnce) in
  let o := eviction.Perform e w in
  failedCounter (finalStatus o) = 2 /\
  result o = Some (Some (Errorf "failed to evict pod" Scenario.blocked)).
Proof.
  cbn zeta.
  destruct (Perform_records_failed_eviction
              (Scenario.clients (Some Scenario.blocked) None 1000)
              (Scenario.world (Scenario.request [] Scenario.failedOnce))
              {| Name := "web-0"; UID := "uid-1" |} Scenario.pod Scenario.blocked
              eq_refl eq_refl eq_refl)
    as (_ & Hc & _ & _ & _ & Hr).
  split; [|exact Hr].
  apply Hc; [unfold in_int32, MinInt32, MaxInt32; cbn; lia|unfold MaxInt32; cbn; lia].
Defined.

(** Scenario A, and the two reconciliations that follow it: "b", then
    nothing more while "b" stays silent within its deadline. *)
Lemma handoff_follows_priority_order_witness :
  let w := Scenario.world
             (Scenario.request [Scenario.interceptorA; Scenario.interceptorB]
                Scenario.emptyStatus) in
  let r := Scenario.clients None None 1000 in
  (exists first,
     (forall x, In x [Scenario.interceptorA; Scenario.interceptorB] ->
                Priority x <= Priority first) /\
     ActiveInterceptorClass (finalStatus (interceptor.Handle r w)) =
       Some (InterceptorClass first)) /\
  exists n, handoffs [Reconciliation r; Reconciliation r] w = firstn n ["b"; "a"].
Proof.
  cbn zeta.
  destruct (handoff_follows_priority_order
              (Scenario.world
                 (Scenario.request [Scenario.interceptorA; Scenario.interceptorB]
                    Scenario.emptyStatus)))
    as (H1 & _ & _ & H2).
  - discriminate.
  - reflexivity.
  - split.
    + destruct (H1 (Scenario.clients None None 1000)) as (first & _ & Hmax & Hc & _).
      exists first. split; [exact Hmax|exact Hc].
    + refine (proj1 (H2 _ _ _)).
      * repeat constructor; cbn; intuition discriminate.
      * cbn. intuition discriminate.
Defined.

(** Scenario C: "a" is the last candidate and has completed. *)
Lemma exhausted_chain_is_evicted_witness :
  let w := Scenario.world
             (Scenario.request [Scenario.interceptorA; Scenario.interceptorB]
                (Scenario.owned "a" true None)) in
  let r := Scenario.clients None None 1000 in
  let o := interceptor.Handle r w in
  evictCalls (finalWorld o) = [("default", "web-0")] /\
  ActiveInterceptorClass (finalStatus o) = Some "a" /\
  handoffs [Reconciliation r; Reconciliation r] w = [].
Proof.
  cbn zeta.
  destruct (exhausted_chain_is_evicted (Scenario.clients None None 1000)
              (Scenario.world
                 (Scenario.request [Scenario.interceptorA; Scenario.interceptorB]
                    (Scenario.owned "a" true None)))
              ["b"] "a")
    as (_ & He & Hc & _ & Hh).
  - repeat constructor; cbn; intuition discriminate.
  - cbn. intuition discriminate.
  - reflexivity.
  - reflexivity.
  - reflexivity.
  - split; [|split; [exact Hc|apply Hh]].
    exact (proj1 (He {| Name := "web-0"; UID := "uid-1" |} Scenario.pod eq_refl eq_refl)).
Defined.

(** "b" last reported at clock value 0; at 2000 seconds the deadline of 1800
    seconds has passed. *)
Lemma heartbeat_deadline_marks_completed_witness :
  let w := Scenario.world
             (Scenario.request [Scenario.interceptorA; Scenario.interceptorB]
                (Scenario.owned "b" false (Some 0))) in
  let i := Scenario.clients None None (2000 * time.Second) in
  deadlinePassed (Now i) (evictionRequest w) /\
  ActiveInterceptorCompleted (finalStatus (interceptor.Handle i w)) = true.
Proof.
  cbn zeta.
  assert (P : deadlinePassed (Now (Scenario.clients None None (2000 * time.Second)))
                (evictionRequest
                   (Scenario.world
                      (Scenario.request [Scenario.interceptorA; Scenario.interceptorB]
                         (Scenario.owned "b" false (Some 0)))))).
  { exists 1800, 0. repeat split. }
  split; [exact P|].
  destruct (heartbeat_deadline_marks_completed
              (Scenario.clients None None (2000 * time.Second))
              (Scenario.world
                 (Scenario.request [Scenario.interceptorA; Scenario.interceptorB]
                    (Scenario.owned "b" false (Some 0))))
              "b")
    as (H & _).
  - reflexivity.
  - discriminate.
  - reflexivity.
  - intros seconds E. injection E as <-. unfold in_int32, MinInt32, MaxInt32. lia.
  - exact (proj1 (proj2 (H P))).
Defined.

(** Scenario D twice, the second time an hour later: the eviction succeeds
    both times and the status after the second reconciliation is the status
    after the first. *)
Lemma reconciling_twice_when_settled_witness :
  let w := Scenario.world (Scenario.request [] Scenario.failedOnce) in
  let r1 := obliging Scenario.lister 1000 in
  let r2 := obliging Scenario.lister 3601000 in
  Status (evictionRequest (run [Reconciliation r1; Reconciliation r2] w)) =
  Status (evictionRequest (run [Reconciliation r1] w)).
Proof.
  cbn zeta.
  apply (reconciling_twice_when_settled Scenario.lister 1000 3601000
           (Scenario.world (Scenario.request [] Scenario.failedOnce))).
  - intros seconds E. injection E as <-. unfold in_int32, MinInt32, MaxInt32. lia.
  - intros _. split; left; reflexivity.
Defined.

(** A request without a pod reference. *)
Lemma nil_PodRef_panics_the_Dispatcher_witness :
  let w := Scenario.world Scenario.untargeted in
  let r := Scenario.clients None None 1000 in
  reconciler.ReconcileEvictionRequest r w = Panicked w /\
  result (eviction.Perform r w) = Some (Some (ErrNew "pod reference cannot be nil")).
Proof.
  cbn zeta.
  destruct (nil_PodRef_panics_the_Dispatcher (Scenario.clients None None 1000)
              (Scenario.world Scenario.untargeted))
    as (_ & Hp & _ & Hd).
  split; [exact (Hp eq_refl)|exact (proj1 (Hd eq_refl))].
Defined.

(** * Further properties of the packages *)

(** ** Calls made by one reconciliation *)

Ltac bool_facts :=
  repeat match goal with
  | H : (_ && _)%bool = true |- _ => apply andb_prop in H; destruct H
  | H : (_ <? _) = true |- _ => apply Z.ltb_lt in H
  | H : (_ <? _) = false |- _ => apply Z.ltb_ge in H
  | H : (_ <=? _) = true |- _ => apply Z.leb_le in H
  | H : (_ <=? _) = false |- _ => apply Z.leb_gt in H
  | H : String.eqb _ _ = true |- _ => apply String.eqb_eq in H
  | H : String.eqb _ _ = false |- _ => apply String.eqb_neq in H
  | H : negb _ = false |- _ => apply negb_false_iff in H
  | H : negb _ = true |- _ => apply negb_true_iff in H
  end.

Lemma no_interceptors er :
  (0 <? Z.of_nat (List.length (Interceptors (Spec er)))) = false ->
  Interceptors (Spec er) = [].
Proof.
  intros H. apply Z.ltb_ge in H. destruct (Interceptors (Spec er)); [reflexivity|].
  cbn in H. lia.
Qed.

(** The eviction endpoint is called at most once, and only on an exhausted
    request. *)
Lemma reconciliation_evictions r w :
  let o := reconciler.ReconcileEvictionRequest r w in
  evictCalls (finalWorld o) = evictCalls w \/
  (exhausted (evictionRequest w) /\
   exists pod, evictCalls (finalWorld o) =
               evictCalls w ++ [(corev1.Namespace pod, corev1.Name pod)]).
Proof.
  cbn zeta. go_unfold. unfold interceptor.noActiveInterceptor. cbn.
  repeat (case_match; cbn); try (left; reflexivity).
  all: right; split; [|eexists; reflexivity].
  all: try (left; now apply no_interceptors).
  all: right; eexists; split; [eassumption|]; bool_facts.
  all: repeat match goal with H : Some _ = Some _ |- _ => injection H as H; subst end.
  all: unfold hasNext; repeat split; assumption.
Qed.

(** X15. One reconciliation writes the status at most twice and calls the
    eviction endpoint at most once.  Either it writes nothing and leaves the
    request as it was, or the last status it writes is exactly the request it
    leaves in memory: no change is kept back from the store. *)
Theorem reconciliation_writes_what_it_changes (r : Clients) (w : World) :
  let o := reconciler.ReconcileEvictionRequest r w in
  exists writes evictions,
    statusWrites (finalWorld o) = statusWrites w ++ writes /\
    evictCalls (finalWorld o) = evictCalls w ++ evictions /\
    (List.length writes <= 2)%nat /\
    (List.length evictions <= 1)%nat /\
    ((writes = [] /\ evictionRequest (finalWorld o) = evictionRequest w) \/
     exists earlier, writes = earlier ++ [evictionRequest (finalWorld o)]).
Proof.
  cbn zeta. go_unfold. unfold interceptor.noActiveInterceptor. cbn.
  repeat (case_match; cbn); rewrite <- ?app_assoc; cbn [app].
  all: eexists; eexists.
  all: split; [first [reflexivity | symmetry; apply app_nil_r]|].
  all: split; [first [reflexivity | symmetry; apply app_nil_r]|].
  all: split; [cbn; lia|]; split; [cbn; lia|].
  all: first [ left; split; reflexivity
             | right; exists []; reflexivity
             | right; eexists [_]; reflexivity ].
Qed.

(** ** What a reconciliation leaves alone *)

Ltac unfold_transformers :=
  unfold reconciledStatus, handledStatus, performedStatus, defaultedRequest,
    failureRecorded, evictionRecorded, upserted, defaultCancellationPolicy,
    status.incrementCounter, with_Status.

Lemma finalStatus_reconciled r w :
  finalStatus (reconciler.ReconcileEvictionRequest r w) =
  reconciledStatus r (evictionRequest w).
Proof.
  pose proof (ReconcileEvictionRequest_world r w) as H.
  unfold finalStatus, finalWorld in *.
  destruct (reconciler.ReconcileEvictionRequest r w); rewrite H; reflexivity.
Qed.

Lemma reconciledStatus_conditions r er :
  Conditions (reconciledStatus r er) = Conditions (Status er) \/
  exists now status_ reason message,
    Conditions (reconciledStatus r er) =
    status.upsert (Conditions (Status er))
      (newCondition now constants.ConditionTypeEvicted status_ reason message).
Proof.
  unfold_transformers.
  repeat (case_match; cbn); try (left; reflexivity); try (exfalso; congruence);
    right; do 4 eexists; unfold newCondition; reflexivity.
Qed.

(** X11. A reconciliation never writes the specification or the metadata of
    the request, nor the fields the interceptors own: [HeartbeatTime],
    [ExpectedInterceptorFinishTime] and [Message] are after it what they were
    before, also when it hands the request to another interceptor. *)
Theorem reconciliation_leaves_interceptor_fields (r : Clients) (w : World) :
  let o := reconciler.ReconcileEvictionRequest r w in
  let before := evictionRequest w in
  let after := evictionRequest (finalWorld o) in
  Spec after = Spec before /\
  ObjectMeta after = ObjectMeta before /\
  HeartbeatTime (Status after) = HeartbeatTime (Status before) /\
  ExpectedInterceptorFinishTime (Status after) =
    ExpectedInterceptorFinishTime (Status before) /\
  Message (Status after) = Message (Status before).
Proof.
  cbn zeta. rewrite ReconcileEvictionRequest_world. cbn [Spec ObjectMeta Status with_Status].
  split; [reflexivity|]. split; [reflexivity|].
  unfold_transformers. repeat (case_match; cbn); repeat split; reflexivity.
Qed.

(** X12. A reconciliation never overwrites a cancellation policy: the only
    change it makes to the field is from unset to "Allow". *)
Theorem reconciliation_keeps_cancellation_policy (r : Clients) (w : World) :
  let o := reconciler.ReconcileEvictionRequest r w in
  let before := EvictionRequestCancellationPolicy (Status (evictionRequest w)) in
  let after := EvictionRequestCancellationPolicy (finalStatus o) in
  after = before \/ (before = "" /\ after = Allow).
Proof.
  cbn zeta. rewrite finalStatus_reconciled.
  unfold_transformers. repeat (case_match; cbn); bool_facts;
    first [left; reflexivity | right; split; [assumption|reflexivity] | congruence].
Qed.

(** X13. Through the Dispatcher the only condition ever written is
    "Evicted": the entry found under any other type is the same after a
    reconciliation as before, and a condition list with one entry per type
    stays so. *)
Theorem reconciliation_writes_only_the_Evicted_condition (r : Clients) (w : World) :
  let o := reconciler.ReconcileEvictionRequest r w in
  let before := Conditions (Status (evictionRequest w)) in
  let after := Conditions (finalStatus o) in
  (forall conditionType, conditionType <> constants.ConditionTypeEvicted ->
     findCondition conditionType after = findCondition conditionType before) /\
  (NoDup (map metav1.Type_ before) -> NoDup (map metav1.Type_ after)).
Proof.
  cbn zeta. rewrite finalStatus_reconciled.
  destruct (reconciledStatus_conditions r (evictionRequest w))
    as [-> | (now & s_ & rs & msg & ->)].
  - split; [reflexivity|tauto].
  - split.
    + intros ty N. now apply upsert_find_other.
    + apply upsert_NoDup.
Qed.

(** X14. The failure counter moves only when the eviction endpoint was
    called and the call failed: after any other reconciliation the counter
    substructure is what it was, not even created. *)
Theorem counter_moves_only_on_failed_eviction (r : Clients) (w : World) :
  let o := reconciler.ReconcileEvictionRequest r w in
  let before := Status (evictionRequest w) in
  PodEvictionStatus_ (finalStatus o) = PodEvictionStatus_ before \/
  exists pod err,
    evictCalls (finalWorld o) = evictCalls w ++ [(corev1.Namespace pod, corev1.Name pod)] /\
    EvictV1 r (corev1.Namespace pod) (corev1.Name pod) = Some err /\
    PodEvictionStatus_ (finalStatus o) =
      Some {| FailedAPIEvictionCounter := int32 (failedCounter before + 1) |}.
Proof.
  cbn zeta. go_unfold.
  unfold interceptor.noActiveInterceptor, defaultCancellationPolicy,
    status.incrementCounter, failedCounter.
  cbn. repeat (case_match; cbn); try (left; reflexivity).
  all: right; do 2 eexists; split; [reflexivity|]; split; [eassumption|reflexivity].
Qed.

(** ** The Dispatcher's own steps *)

(** X8. A stale reference is no error: when the target pod is not found, or
    a pod of that name exists with another UID, the Dispatcher returns nil
    and neither writes nor evicts nor changes the request.  Any other failure
    of the lookup is returned as it came, unwrapped, with nothing done. *)
Theorem stale_target_is_skipped (r : Clients) (w : World) (podRef : LocalPodReference) :
  let er := evictionRequest w in
  let o := reconciler.ReconcileEvictionRequest r w in
  let found := PodLister r (metav1.Namespace (ObjectMeta er)) (Name podRef) in
  PodRef (Target (Spec er)) = Some podRef ->
  (evictionRequest (finalWorld o) = er /\
   statusWrites (finalWorld o) = statusWrites w /\
   evictCalls (finalWorld o) = evictCalls w \/
   exists pod, found = PodFound pod /\ corev1.UID pod = UID podRef) /\
  (found = PodNotFound -> result o = Some None) /\
  (forall pod, found = PodFound pod -> corev1.UID pod <> UID podRef ->
     result o = Some None) /\
  (forall err, found = PodGetFailed err -> result o = Some (Some err)).
Proof.
  intros er o found HP. subst o found er.
  go_unfold. unfold interceptor.noActiveInterceptor. cbn. rewrite HP. cbn.
  destruct (PodLister r (metav1.Namespace (ObjectMeta (evictionRequest w))) (Name podRef))
    as [pod| |err]; cbn.
  - destruct (String.eqb (corev1.UID pod) (UID podRef)) eqn:E.
    + apply String.eqb_eq in E. split; [right; now exists pod|].
      split; [discriminate|]. split; [|discriminate].
      intros pod' H N. injection H as <-. contradiction.
    + cbn. split; [left; repeat split|]. split; [discriminate|]. split; [|discriminate].
      reflexivity.
  - split; [left; repeat split|]. split; [reflexivity|]. split; discriminate.
  - split; [left; repeat split|]. split; [discriminate|]. split; [discriminate|].
    intros err' H. now injection H as <-.
Qed.

(** X9. With the target present and the cancellation policy unset, the first
    thing the Dispatcher writes is the request with the policy "Allow" and
    nothing else changed.  When that write fails, its error is returned and
    the invocation ends there: no interceptor is selected and nothing is
    evicted. *)
Theorem policy_is_defaulted_first (r : Clients) (w : World)
    (podRef : LocalPodReference) (pod : corev1.Pod) :
  let er := evictionRequest w in
  let o := reconciler.ReconcileEvictionRequest r w in
  let defaulted :=
    with_Status (set_EvictionRequestCancellationPolicy Allow (Status er)) er in
  PodRef (Target (Spec er)) = Some podRef ->
  PodLister r (metav1.Namespace (ObjectMeta er)) (Name podRef) = PodFound pod ->
  corev1.UID pod = UID podRef ->
  EvictionRequestCancellationPolicy (Status er) = "" ->
  (exists later, statusWrites (finalWorld o) = statusWrites w ++ defaulted :: later) /\
  (forall err, UpdateStatus r defaulted = Some err ->
     result o = Some (Some err) /\
     evictionRequest (finalWorld o) = defaulted /\
     statusWrites (finalWorld o) = statusWrites w ++ [defaulted] /\
     evictCalls (finalWorld o) = evictCalls w).
Proof.
  intros er o defaulted HP HL HU HE. subst o.
  assert (HU' : negb (String.eqb (corev1.UID pod) (UID podRef)) = false)
    by (apply negb_false_iff, String.eqb_eq; assumption).
  split.
  - go_unfold. unfold interceptor.noActiveInterceptor. cbn.
    fold er. rewrite HP, HL. cbn. rewrite HU'. cbn. rewrite HE. cbn.
    repeat (case_match; cbn); rewrite <- ?app_assoc; cbn [app];
      eexists; reflexivity.
  - intros err Herr.
    unfold reconciler.ReconcileEvictionRequest, bind, getRequest, modifyStatus,
      callUpdateStatus, log, ret.
    fold er. rewrite HP, HL, HU', HE. cbn. fold er. fold defaulted. rewrite Herr. cbn.
    repeat split.
Qed.


(** ** The interceptor chain *)

(** X6. The eviction endpoint is not called while the chain has something
    left to do: on a request with interceptors that is not yet with a
    completed last candidate, a reconciliation makes no eviction call,
    whatever the collaborators answer. *)
Theorem no_eviction_before_the_chain_is_exhausted (r : Clients) (w : World) :
  let o := reconciler.ReconcileEvictionRequest r w in
  ~ exhausted (evictionRequest w) ->
  evictCalls (finalWorld o) = evictCalls w.
Proof.
  intros o N. destruct (reconciliation_evictions r w) as [H|[H _]];
    [exact H|contradiction].
Qed.

Lemma findInterceptorIndexFrom_absent start interceptors class :
  ~ In class (map InterceptorClass interceptors) ->
  interceptor.findInterceptorIndexFrom start interceptors class = -1.
Proof.
  revert start.
  induction interceptors as [|x l IH]; cbn [interceptor.findInterceptorIndexFrom map In];
    intros start N; [reflexivity|].
  destruct (String.eqb (InterceptorClass x) class) eqn:E.
  - apply String.eqb_eq in E. tauto.
  - apply IH. tauto.
Qed.

Lemma findInterceptorIndexFrom_first start interceptors class n :
  0 <= start ->
  (n < Z.to_nat (interceptor.findInterceptorIndexFrom start interceptors class - start))%nat ->
  nth_error (map InterceptorClass interceptors) n <> Some class.
Proof.
  revert start n.
  induction interceptors as [|x l IH]; cbn [interceptor.findInterceptorIndexFrom map];
    intros start n Hs Hn.
  - destruct n; discriminate.
  - destruct (String.eqb (InterceptorClass x) class) eqn:E.
    + rewrite Z.sub_diag in Hn. cbn in Hn. lia.
    + apply String.eqb_neq in E. destruct n as [|n]; cbn; [congruence|].
      apply (IH (start + 1)); [lia|].
      pose proof (findInterceptorIndexFrom_range (start + 1) l class) as R.
      cbn zeta in R. destruct R as [R|R]; lia.
Qed.

(** X1. [findInterceptorIndex] answers -1 exactly when no interceptor of the
    slice has the class; otherwise it answers a valid index, the interceptor
    there has the class, and none before it has. *)
Theorem findInterceptorIndex_is_the_first_occurrence
    (interceptors : list Interceptor) (class : string) :
  let idx := interceptor.findInterceptorIndex interceptors class in
  let classes := map InterceptorClass interceptors in
  (idx = -1 <-> ~ In class classes) /\
  (idx <> -1 ->
     0 <= idx < Z.of_nat (List.length interceptors) /\
     nth_error classes (Z.to_nat idx) = Some class /\
     forall n, (n < Z.to_nat idx)%nat -> nth_error classes n <> Some class).
Proof.
  cbn zeta. unfold interceptor.findInterceptorIndex.
  pose proof (findInterceptorIndexFrom_range 0 interceptors class) as R.
  pose proof (findInterceptorIndexFrom_nth 0 interceptors class) as F.
  cbn zeta in R, F. rewrite Z.sub_0_r in F. split; [split|].
  - intros E H.
    destruct (findInterceptorIndexFrom_In 0 interceptors class H) as [N|N]; [congruence|lia].
  - apply findInterceptorIndexFrom_absent.
  - intros N. destruct R as [R|R]; [lia|contradiction|].
    split; [lia|]. split; [apply F; [lia|assumption]|].
    intros n Hn. apply (findInterceptorIndexFrom_first 0); [lia|].
    now rewrite Z.sub_0_r.
Qed.

(** X2. With pairwise distinct priorities the candidate order is strictly
    descending and does not depend on the order in which the specification
    lists the interceptors. *)
Theorem candidate_order_ignores_listing_order (listed relisted : list Interceptor) :
  NoDup (map Priority listed) ->
  Permutation listed relisted ->
  interceptor.sortInterceptorsByPriority relisted =
    interceptor.sortInterceptorsByPriority listed /\
  strictlyDescending (interceptor.sortInterceptorsByPriority listed).
Proof.
  intros ND P.
  assert (S : forall l, NoDup (map Priority l) ->
                strictlyDescending (interceptor.sortInterceptorsByPriority l)).
  { intros l NDl. apply descending_strict; [|apply sortInterceptorsByPriority_descending].
    apply (Permutation_NoDup
             (Permutation_map Priority
                (Permutation_sym (sortInterceptorsByPriority_Permutation l)))).
    assumption. }
  split; [|now apply S].
  apply Slice_unique; [assumption| |].
  - rewrite sortInterceptorsByPriority_Permutation. now symmetry.
  - apply S. apply (Permutation_NoDup (Permutation_map Priority P) ND).
Qed.

(** X3. [Handle] panics in exactly one configuration: no active interceptor
    and an empty interceptor list, where [selectInitialInterceptor] indexes
    an empty slice.  The Dispatcher calls it only on a non-empty list. *)
Theorem Handle_panics_only_on_an_empty_list (i : Clients) (w : World) :
  let er := evictionRequest w in
  result (interceptor.Handle i w) = None <->
  interceptor.noActiveInterceptor (Status er) = true /\ Interceptors (Spec er) = [].
Proof.
  cbn zeta.
  pose proof (sortInterceptorsByPriority_length
                (Interceptors (Spec (evictionRequest w)))) as L.
  split.
  - go_unfold. unfold interceptor.noActiveInterceptor. cbn.
    repeat (case_match; cbn in * ); intros H; try discriminate H;
      bool_facts;
      repeat match goal with
      | H : nth_error _ _ = None |- _ => apply nth_error_None in H
      end; try lia; try congruence.
    all: split; [first [reflexivity | now apply String.eqb_eq]|].
    all: symmetry in L; now apply length_zero_iff_nil in L.
  - intros [Hn He]. unfold interceptor.Handle, bind, getRequest.
    rewrite Hn, He. reflexivity.
Qed.

(** On a completed class without a next candidate [Handle] is [Perform]
    after one log line. *)
Lemma Handle_runs_Perform i w class :
  let er := evictionRequest w in
  ActiveInterceptorClass (Status er) = Some class ->
  class <> "" ->
  ActiveInterceptorCompleted (Status er) = true ->
  hasNext er class = false ->
  interceptor.Handle i w =
  eviction.Perform i
    {| evictionRequest := evictionRequest w; statusWrites := statusWrites w;
       evictCalls := evictCalls w;
       logged := logged w ++
                 ["All interceptors completed, proceeding with direct eviction"] |}.
Proof.
  intros er Hc Hne Hd Hn.
  unfold interceptor.Handle, bind at 1, getRequest.
  unfold interceptor.noActiveInterceptor. fold er. rewrite Hc, Hd.
  replace (String.eqb class "") with false
    by (symmetry; apply String.eqb_neq; assumption).
  unfold interceptor.handleCompletedInterceptor, bind at 1, getRequest.
  cbn [evictionRequest]. fold er. rewrite Hc.
  unfold hasNext in Hn. rewrite Hn. reflexivity.
Qed.

(** X4. An active class that is not among the interceptors of the request
    counts as the end of the chain: once its completion flag is set, the
    handler asks for no further interceptor and does what [Perform] does,
    with the same status, result, writes and eviction calls. *)
Theorem unknown_active_class_ends_the_chain (i : Clients) (w : World) (class : string) :
  let er := evictionRequest w in
  let o := interceptor.Handle i w in
  let p := eviction.Perform i w in
  ActiveInterceptorClass (Status er) = Some class ->
  class <> "" ->
  ActiveInterceptorCompleted (Status er) = true ->
  ~ In class (map InterceptorClass (Interceptors (Spec er))) ->
  finalStatus o = finalStatus p /\
  result o = result p /\
  statusWrites (finalWorld o) = statusWrites (finalWorld p) /\
  evictCalls (finalWorld o) = evictCalls (finalWorld p).
Proof.
  intros er o p Hc Hne Hd Hin.
  assert (Hn : hasNext er class = false).
  { unfold hasNext, interceptor.findInterceptorIndex.
    rewrite findInterceptorIndexFrom_absent; [reflexivity|].
    intros H. apply Hin.
    apply (Permutation_in _
             (Permutation_map InterceptorClass
                (sortInterceptorsByPriority_Permutation (Interceptors (Spec er)))) H). }
  subst o p. rewrite (Handle_runs_Perform i w class Hc Hne Hd Hn).
  match goal with |- context [eviction.Perform i ?w0] =>
    destruct (Perform_world i w0) as (Ho1 & Ho2 & Ho3 & Ho4);
    set (o := eviction.Perform i w0) in *
  end.
  destruct (Perform_world i w) as (Hp1 & Hp2 & Hp3 & Hp4).
  set (p := eviction.Perform i w) in *.
  cbn [evictionRequest statusWrites evictCalls] in *.
  assert (Hso : finalStatus o = performedStatus i (evictionRequest w)).
  { unfold finalStatus, finalWorld in *. destruct o; rewrite Ho1; reflexivity. }
  assert (Hsp : finalStatus p = performedStatus i (evictionRequest w)).
  { unfold finalStatus, finalWorld in *. destruct p; rewrite Hp1; reflexivity. }
  repeat split; congruence.
Qed.

(** One reconciliation of a request that waits on a silent interceptor. *)
Lemma waiting_step r w class :
  let er := evictionRequest w in
  let o := reconciler.ReconcileEvictionRequest r w in
  Interceptors (Spec er) <> [] ->
  ActiveInterceptorClass (Status er) = Some class ->
  class <> "" ->
  ActiveInterceptorCompleted (Status er) = false ->
  HeartbeatTime (Status er) = None ->
  Spec (evictionRequest (finalWorld o)) = Spec er /\
  ActiveInterceptorClass (finalStatus o) = Some class /\
  ActiveInterceptorCompleted (finalStatus o) = false /\
  HeartbeatTime (finalStatus o) = None /\
  Conditions (finalStatus o) = Conditions (Status er) /\
  PodEvictionStatus_ (finalStatus o) = PodEvictionStatus_ (Status er) /\
  evictCalls (finalWorld o) = evictCalls w.
Proof.
  intros er o HN Hc Hne Hd Hh. subst o.
  split; [rewrite ReconcileEvictionRequest_world; reflexivity|].
  assert (Hl : (0 <? Z.of_nat (List.length (Interceptors (Spec er)))) = true).
  { apply Z.ltb_lt. destruct (Interceptors (Spec er)); [contradiction|cbn; lia]. }
  do 5 (split; [rewrite finalStatus_reconciled; subst er; unfold_transformers;
                unfold interceptor.noActiveInterceptor, interceptor.exceededDeadline;
                rewrite Hl;
                repeat (case_match; cbn in * ); bool_facts;
                try assumption; try congruence|]).
  destruct (reconciliation_evictions r w) as [H|[[H|(c & _ & _ & H & _)] _]];
    [exact H|contradiction|fold er in H; congruence].
Qed.

(** X5. An interceptor that never reports is never timed out: the deadline
    is measured from [HeartbeatTime] alone, so while that field is unset no
    number of reconciliations, at whatever clock values, sets the completion
    flag, hands the request on, evicts the target or records anything. *)
Theorem silent_interceptor_is_never_timed_out
    (rs : list Clients) (w : World) (class : string) :
  let er := evictionRequest w in
  let w' := run (map Reconciliation rs) w in
  Interceptors (Spec er) <> [] ->
  ActiveInterceptorClass (Status er) = Some class ->
  class <> "" ->
  ActiveInterceptorCompleted (Status er) = false ->
  HeartbeatTime (Status er) = None ->
  ActiveInterceptorClass (Status (evictionRequest w')) = Some class /\
  ActiveInterceptorCompleted (Status (evictionRequest w')) = false /\
  Conditions (Status (evictionRequest w')) = Conditions (Status er) /\
  PodEvictionStatus_ (Status (evictionRequest w')) = PodEvictionStatus_ (Status er) /\
  evictCalls w' = evictCalls w.
Proof.
  cbn zeta. revert w.
  induction rs as [|r rs IH]; intros w HN Hc Hne Hd Hh; cbn [map run step].
  { repeat split; assumption. }
  destruct (waiting_step r w class HN Hc Hne Hd Hh) as (Hs & H1 & H2 & H3 & H4 & H5 & H6).
  destruct (reconciler.ReconcileEvictionRequest r w) as [a w1|w1];
    [|repeat split; assumption].
  cbn [finalStatus finalWorld] in *.
  destruct (IH w1) as (I1 & I2 & I3 & I4 & I5); try assumption.
  { now rewrite Hs. }
  repeat split; congruence.
Qed.

(** X7. Where the handler itself writes the status, it returns what the
    write returned: on a request with interceptors that is not exhausted,
    [Handle] either changes and writes nothing and returns nil, or writes the
    request once, as it leaves it, and returns the result of that write. *)
Theorem Handle_returns_the_result_of_its_write (i : Clients) (w : World) :
  let er := evictionRequest w in
  let o := interceptor.Handle i w in
  ~ exhausted er ->
  (evictionRequest (finalWorld o) = er /\
   statusWrites (finalWorld o) = statusWrites w /\
   result o = Some None) \/
  (statusWrites (finalWorld o) = statusWrites w ++ [evictionRequest (finalWorld o)] /\
   result o = Some (UpdateStatus i (evictionRequest (finalWorld o)))).
Proof.
  intros er o N. subst o er.
  pose proof (sortInterceptorsByPriority_length
                (Interceptors (Spec (evictionRequest w)))) as L.
  assert (HN : Interceptors (Spec (evictionRequest w)) <> [])
    by (intros E; apply N; now left).
  go_unfold. unfold interceptor.noActiveInterceptor. cbn.
  repeat (case_match; cbn);
    try (left; repeat split; reflexivity);
    try (right; split; [reflexivity|congruence]).
  all: exfalso; bool_facts;
    repeat match goal with
    | H : nth_error _ _ = None |- _ => apply nth_error_None in H
    end;
    try (cbn in L; symmetry in L; apply length_zero_iff_nil in L; contradiction);
    try lia.
  all: try discriminate.
  all: repeat match goal with H : Some _ = Some _ |- _ => injection H as H; subst end.
  all: apply N; right; eexists; split; [eassumption|]; repeat split;
    try assumption; unfold hasNext; assumption.
Qed.

(** ** The status manager and the performer on their own *)

Lemma replaceFirst_nth conditions condition conditions' n c :
  status.replaceFirst conditions condition = Some conditions' ->
  nth_error conditions n = Some c ->
  metav1.Type_ c <> metav1.Type_ condition ->
  nth_error conditions' n = Some c.
Proof.
  revert conditions' n.
  induction conditions as [|x l IH]; cbn [status.replaceFirst]; intros l' n H Hn N;
    [discriminate|].
  destruct (String.eqb (metav1.Type_ x) (metav1.Type_ condition)) eqn:E.
  - apply String.eqb_eq in E. injection H as <-.
    destruct n as [|n]; cbn in *; [|exact Hn]. injection Hn as <-. contradiction.
  - destruct (status.replaceFirst l condition) as [l0|] eqn:R; cbn in H; [|discriminate].
    injection H as <-. destruct n as [|n]; cbn in *; [exact Hn|]. now apply (IH l0).
Qed.

(** X16. [UpsertCondition] never removes or reorders conditions: the types
    stand in the list as before, a new type is appended at the end, and every
    condition of another type is found at the position it had. *)
Theorem UpsertCondition_keeps_the_list_in_place
    (s : Clients) (conditionType status_ reason message : string) (w : World) :
  let before := Conditions (Status (evictionRequest w)) in
  let o := status.UpsertCondition s conditionType status_ reason message w in
  let after := Conditions (finalStatus o) in
  map metav1.Type_ after =
    map metav1.Type_ before ++
    match findCondition conditionType before with
    | Some _ => []
    | None => [conditionType]
    end /\
  (forall n c, nth_error before n = Some c -> metav1.Type_ c <> conditionType ->
               nth_error after n = Some c).
Proof.
  intros before o after.
  destruct (UpsertCondition_world s conditionType status_ reason message w) as (He & _).
  fold o in He.
  assert (Ha : after = status.upsert before
                         (newCondition (Now s) conditionType status_ reason message)).
  { unfold after, finalStatus, finalWorld in *.
    destruct o; rewrite He; cbn [Status with_Status];
      now destruct (upserted_fields (Now s) conditionType status_ reason message
                      (Status (evictionRequest w))) as (-> & _). }
  rewrite Ha. unfold status.upsert.
  set (c := newCondition (Now s) conditionType status_ reason message).
  destruct (status.replaceFirst before c) as [l'|] eqn:R.
  - rewrite (replaceFirst_types c _ _ R).
    destruct (findCondition conditionType before) eqn:F.
    + split; [now rewrite app_nil_r|]. intros n x Hn N.
      now apply (replaceFirst_nth _ _ _ _ _ R Hn).
    + apply (replaceFirst_None c) in F. congruence.
  - apply replaceFirst_None in R. cbn in R. rewrite R. split.
    + now rewrite map_app.
    + intros n x Hn _. rewrite nth_error_app1; [exact Hn|].
      apply nth_error_Some. congruence.
Qed.

(** X17. [IncrementFailedEvictionCounter] counts before it writes: the
    counter is incremented in the request whether or not the write succeeds;
    the one status write carries the request as the call leaves it, and the
    call returns what that write returned. *)
Theorem IncrementFailedEvictionCounter_returns_the_write (s : Clients) (w : World) :
  let o := status.IncrementFailedEvictionCounter s w in
  let after := evictionRequest (finalWorld o) in
  PodEvictionStatus_ (Status after) =
    Some {| FailedAPIEvictionCounter :=
              int32 (failedCounter (Status (evictionRequest w)) + 1) |} /\
  EvictionRequestCancellationPolicy (Status after) <> "" /\
  statusWrites (finalWorld o) = statusWrites w ++ [after] /\
  evictCalls (finalWorld o) = evictCalls w /\
  result o = Some (UpdateStatus s after).
Proof.
  intros o after.
  destruct (IncrementFailedEvictionCounter_world s w) as (He & Hw & Hv & Hr).
  fold o in He, Hw, Hv, Hr. fold after in He.
  rewrite Hw, Hr, He. cbn [Status with_Status].
  split; [apply failureRecorded_counter|]. split; [|repeat split; assumption].
  unfold failureRecorded.
  match goal with |- context [upserted ?n ?a ?b ?c ?d ?st] =>
    destruct (upserted_fields n a b c d st) as (_ & _ & _ & _ & _ & ->) end.
  destruct (defaultCancellationPolicy_fields
              (status.incrementCounter (Status (evictionRequest w))))
    as (_ & _ & _ & _ & _ & ->).
  cbn. repeat case_match; bool_facts; try discriminate; assumption.
Qed.

(** X18. [Perform] when the target cannot be had: a pod that is not found is
    a silent no-op (nil, nothing written, nothing evicted, request as
    before); any other failure of the lookup is returned wrapped as "failed
    to get pod", again with nothing done. *)
Theorem Perform_without_target (e : Clients) (w : World) (podRef : LocalPodReference) :
  let er := evictionRequest w in
  let o := eviction.Perform e w in
  let found := PodLister e (metav1.Namespace (ObjectMeta er)) (Name podRef) in
  PodRef (Target (Spec er)) = Some podRef ->
  (forall pod, found <> PodFound pod) ->
  evictionRequest (finalWorld o) = er /\
  statusWrites (finalWorld o) = statusWrites w /\
  evictCalls (finalWorld o) = evictCalls w /\
  result o = Some (match found with
                   | PodGetFailed err => Some (Errorf "failed to get pod" err)
                   | _ => None
                   end).
Proof.
  intros er o found HP HF.
  destruct (Perform_world e w) as (He & Hr & Hw & Hv). fold o er in He, Hr, Hw, Hv.
  unfold performedStatus, performedResult, performedWrites, performedEvictions in *.
  rewrite HP in *. fold found in He, Hr, Hw, Hv.
  destruct found as [pod| |err] eqn:E; [exfalso; now apply (HF pod)| |];
    rewrite with_Status_same in He; rewrite app_nil_r in Hw, Hv; repeat split; assumption.
Qed.

(** ** The worker pool *)

(** What one work item adds to the calls on the queue. *)
Lemma processNextWorkItem_calls p obj s :
  let x := worker.processNextWorkItem p (Some obj) s in
  exists earlier obj',
    worker.queueCalls (finalProcess x) =
      worker.queueCalls s ++ earlier ++ [worker.Done obj'] /\
    (List.length earlier <= 1)%nat /\
    existsb isDone earlier = false /\
    match obj with
    | worker.OtherObject _ => obj' = obj
    | worker.EvictionRequestObject queued =>
        exists left,
          obj' = worker.EvictionRequestObject left /\
          Spec left = Spec queued /\ ObjectMeta left = ObjectMeta queued
    end.
Proof.
  cbn zeta. unfold worker.processNextWorkItem.
  destruct obj as [queued|printed].
  - destruct (worker.MetaNamespaceKeyFunc p (worker.EvictionRequestObject queued))
      as [key|err].
    + unfold worker.syncHandler, bind, log. cbv beta iota.
      match goal with |- context [reconciler.ReconcileEvictionRequest ?r ?w0] =>
        pose proof (ReconcileEvictionRequest_world r w0) as H;
        destruct (reconciler.ReconcileEvictionRequest r w0) as [[e|] w1|w1]
      end; cbn in *; rewrite H; cbn.
      * exists [worker.AddRateLimited
                  (worker.EvictionRequestObject
                     (with_Status (reconciledStatus (worker.reconciler p) queued) queued))].
        eexists. split; [rewrite <- app_assoc; reflexivity|].
        repeat split; try (cbn; lia). eexists. repeat split.
      * exists [worker.Forget
                  (worker.EvictionRequestObject
                     (with_Status (reconciledStatus (worker.reconciler p) queued) queued))].
        eexists. split; [rewrite <- app_assoc; reflexivity|].
        repeat split; try (cbn; lia). eexists. repeat split.
      * exists []. eexists. split; [reflexivity|].
        repeat split; try (cbn; lia). eexists. repeat split.
    + cbn. exists [worker.Forget (worker.EvictionRequestObject queued)]. eexists.
      split; [rewrite <- app_assoc; reflexivity|].
      repeat split; try (cbn; lia). eexists. repeat split.
  - cbn. exists [worker.Forget (worker.OtherObject printed)]. eexists.
    split; [rewrite <- app_assoc; reflexivity|]. repeat split; cbn; lia.
Qed.

(** X19. Every item taken from the queue is marked [Done] exactly once, as
    the last call on the queue, whether the reconciler returns nil, returns
    an error or panics; the item marked is the one taken (for a request: the
    same object, as the reconciliation left its status).  At most one other
    call precedes it.  On the shutdown answer the pool makes no call and
    stops. *)
Theorem every_item_is_marked_done_once
    (p : worker.Pool) (obj : worker.Object) (s : worker.Process) :
  let x := worker.processNextWorkItem p (Some obj) s in
  (exists earlier obj',
     worker.queueCalls (finalProcess x) =
       worker.queueCalls s ++ earlier ++ [worker.Done obj'] /\
     (List.length earlier <= 1)%nat /\
     existsb isDone earlier = false /\
     match obj with
     | worker.OtherObject _ => obj' = obj
     | worker.EvictionRequestObject queued =>
         exists left,
           obj' = worker.EvictionRequestObject left /\
           Spec left = Spec queued /\ ObjectMeta left = ObjectMeta queued
     end) /\
  worker.processNextWorkItem p None s = worker.Finished false s.
Proof.
  cbn zeta. split; [apply processNextWorkItem_calls|reflexivity].
Qed.

(** X20. The retry discipline of the pool, for a queued request that has a
    key.  The pool runs one reconciliation on it.  When that returns an
    error, the item goes back on the queue with rate limiting and is not
    forgotten, and the error is reported under the item's key; when it
    returns nil, the item is forgotten and nothing is reported; when it
    panics, the pool crashes after the deferred [Done].  The calls are made
    with the request as the reconciliation left it. *)
Theorem failed_reconciliation_is_requeued
    (p : worker.Pool) (queued : EvictionRequest) (key : string) (s : worker.Process) :
  let obj := worker.EvictionRequestObject queued in
  let o := reconciler.ReconcileEvictionRequest (worker.reconciler p)
             (worker.enter (worker.logLine "Processing eviction request" s) queued) in
  let x := worker.processNextWorkItem p (Some obj) s in
  let left := worker.EvictionRequestObject (evictionRequest (finalWorld o)) in
  worker.MetaNamespaceKeyFunc p obj = inl key ->
  worker.written (finalProcess x) = statusWrites (finalWorld o) /\
  worker.evicted (finalProcess x) = evictCalls (finalWorld o) /\
  match result o with
  | Some (Some err) =>
      answered x = Some true /\
      worker.queueCalls (finalProcess x) =
        worker.queueCalls s ++ [worker.AddRateLimited left; worker.Done left] /\
      worker.handledErrors (finalProcess x) =
        worker.handledErrors s ++ [worker.SyncFailed key err]
  | Some None =>
      answered x = Some true /\
      worker.queueCalls (finalProcess x) =
        worker.queueCalls s ++ [worker.Forget left; worker.Done left] /\
      worker.handledErrors (finalProcess x) = worker.handledErrors s
  | None =>
      answered x = None /\
      worker.queueCalls (finalProcess x) = worker.queueCalls s ++ [worker.Done left] /\
      worker.handledErrors (finalProcess x) = worker.handledErrors s
  end.
Proof.
  intros obj o x left HK. subst x left obj.
  unfold worker.processNextWorkItem. rewrite HK.
  unfold worker.syncHandler, bind, log. cbv beta iota.
  change (worker.enter (worker.logLine "Processing eviction request" s) queued)
    with {| evictionRequest := queued; statusWrites := worker.written s;
            evictCalls := worker.evicted s;
            logged := worker.journal s ++ ["Processing eviction request"] |} in o.
  cbn [evictionRequest statusWrites evictCalls logged worker.enter].
  fold o. destruct o as [[e|] w1|w1]; cbn; rewrite <- ?app_assoc; repeat split.
Qed.

(** X21. An item the pool cannot work on is dropped for good: a queue entry
    of another type, or a request for which no key can be computed, is
    forgotten, reported once to the error sink and marked done; it is not put
    back on the queue, no reconciliation runs (nothing is written, evicted or
    logged), and the pool goes on to the next item. *)
Theorem malformed_item_is_not_retried
    (p : worker.Pool) (obj : worker.Object) (s : worker.Process) :
  let x := worker.processNextWorkItem p (Some obj) s in
  match obj with
  | worker.OtherObject _ => True
  | worker.EvictionRequestObject _ =>
      exists err, worker.MetaNamespaceKeyFunc p obj = inr err
  end ->
  answered x = Some true /\
  worker.queueCalls (finalProcess x) =
    worker.queueCalls s ++ [worker.Forget obj; worker.Done obj] /\
  (exists h, worker.handledErrors (finalProcess x) = worker.handledErrors s ++ [h]) /\
  worker.written (finalProcess x) = worker.written s /\
  worker.evicted (finalProcess x) = worker.evicted s /\
  worker.journal (finalProcess x) = worker.journal s.
Proof.
  intros x H. subst x. unfold worker.processNextWorkItem.
  destruct obj as [queued|printed].
  - destruct H as [err ->]. cbn. rewrite <- app_assoc. repeat split. eexists. reflexivity.
  - cbn. rewrite <- app_assoc. repeat split. eexists. reflexivity.
Qed.

(** X22. Only eviction requests reach the queue, and a notification adds at
    most one: the add handler queues the object, the update handler the new
    object and only when the old one is an eviction request as well; an
    object of another type, or one without a key, adds nothing.  The handlers
    never call the queue otherwise and start no reconciliation. *)
Theorem handlers_queue_the_new_request
    (p : worker.Pool) (oldObj newObj : worker.Object) (s : worker.Process) :
  let queues (obj : worker.Object) : list worker.QueueCall :=
    match obj, worker.MetaNamespaceKeyFunc p obj with
    | worker.EvictionRequestObject _, inl _ => [worker.Add obj]
    | _, _ => []
    end in
  let added := controller.handleEvictionRequestAdd p newObj s in
  let updated := controller.handleEvictionRequestUpdate p oldObj newObj s in
  worker.queueCalls (worker.Enqueue p newObj s) = worker.queueCalls s ++ queues newObj /\
  worker.queueCalls added = worker.queueCalls s ++ queues newObj /\
  worker.queueCalls updated =
    worker.queueCalls s ++
    match oldObj with
    | worker.EvictionRequestObject _ => queues newObj
    | worker.OtherObject _ => []
    end /\
  worker.written added = worker.written s /\ worker.evicted added = worker.evicted s /\
  worker.written updated = worker.written s /\ worker.evicted updated = worker.evicted s.
Proof.
  cbn zeta.
  unfold controller.handleEvictionRequestAdd, controller.handleEvictionRequestUpdate,
    worker.Enqueue.
  destruct oldObj as [old|printedOld], newObj as [new|printedNew];
    try destruct (worker.MetaNamespaceKeyFunc p (worker.EvictionRequestObject new));
    cbn; rewrite ?app_nil_r; repeat split.
Qed.

Lemma count_done_app (l1 l2 : list worker.QueueCall) :
  List.length (filter isDone (l1 ++ l2)) =
  (List.length (filter isDone l1) + List.length (filter isDone l2))%nat.
Proof. now rewrite filter_app, length_app. Qed.

Lemma filter_isDone_none (l : list worker.QueueCall) :
  existsb isDone l = false -> filter isDone l = [].
Proof.
  induction l as [|c l IH]; cbn; [reflexivity|].
  destruct (isDone c); cbn; [discriminate|exact IH].
Qed.

(** X23. The worker loop marks done what it takes, item by item: run against
    a queue that hands out a list of items and then shuts down, the loop
    makes exactly one [Done] call per item when it ends normally, and never
    more than one per item handed out when a reconciliation panics; after
    the shutdown answer it takes nothing more. *)
Theorem runWorker_marks_every_item_done
    (items : list (worker.Pool * worker.Object)) (last : worker.Pool)
    (never : list (worker.Pool * option worker.Object)) (s : worker.Process) :
  let x := worker.runWorker (dequeued items ++ (last, None) :: never) s in
  exists calls,
    worker.queueCalls (finalProcess x) = worker.queueCalls s ++ calls /\
    (List.length (filter isDone calls) <= List.length items)%nat /\
    (answered x = Some tt -> List.length (filter isDone calls) = List.length items).
Proof.
  cbn zeta. revert s.
  induction items as [|[p obj] items IH]; intros s; cbn [dequeued map app worker.runWorker].
  - exists []. cbn. rewrite app_nil_r. repeat split; lia.
  - cbn [fst snd].
    destruct (processNextWorkItem_calls p obj s) as (earlier & obj' & Hq & _ & Hd & _).
    cbn zeta in Hq.
    assert (Hone : List.length (filter isDone (earlier ++ [worker.Done obj'])) = 1%nat).
    { rewrite count_done_app, (filter_isDone_none _ Hd). reflexivity. }
    assert (Htrue : forall b s', worker.processNextWorkItem p (Some obj) s =
                                 worker.Finished b s' -> b = true).
    { intros b s'. unfold worker.processNextWorkItem.
      repeat case_match; intros E; inversion E; reflexivity. }
    destruct (worker.processNextWorkItem p (Some obj) s) as [b s'|s'] eqn:E.
    + rewrite (Htrue b s' eq_refl). cbn [finalProcess] in Hq.
      destruct (IH s') as (calls & Hc & Hle & Heq).
      fold (dequeued items) in *.
      exists ((earlier ++ [worker.Done obj']) ++ calls).
      rewrite Hc, Hq, count_done_app, Hone, <- !app_assoc. cbn [List.length].
      repeat split; [lia|]. intros H. specialize (Heq H). lia.
    + cbn [finalProcess answered] in *. exists (earlier ++ [worker.Done obj']).
      rewrite Hq, Hone. cbn [List.length]. repeat split; [lia|discriminate].
Qed.

(** ** The controller *)

Lemma verifyCacheSync_fold (syncMap : list (string * bool)) allSynced c :
  fold_left
    (fun (acc : bool * controller.Controller) (entry : string * bool) =>
       let (allSynced, c) := acc in
       if negb (snd entry)
       then (false, controller.note "Failed to sync informer cache" c)
       else (allSynced, c))
    syncMap (allSynced, c) =
  (allSynced && forallb snd syncMap,
   {| controller.stopCh := controller.stopCh c;
      controller.launches := controller.launches c;
      controller.notes :=
        controller.notes c ++
        map (fun _ => "Failed to sync informer cache")
            (filter (fun entry => negb (snd entry)) syncMap) |}).
Proof.
  revert allSynced c. induction syncMap as [|[name synced] l IH]; intros allSynced c.
  - cbn. rewrite andb_true_r, app_nil_r. now destruct c.
  - cbn [fold_left snd]. destruct synced; cbn [negb].
    + rewrite IH. cbn. reflexivity.
    + rewrite IH. cbn. rewrite andb_false_r, <- app_assoc. reflexivity.
Qed.

Lemma verifyCacheSync_spec factoryName syncMap c :
  controller.verifyCacheSync factoryName syncMap c =
  (forallb snd syncMap,
   {| controller.stopCh := controller.stopCh c;
      controller.launches := controller.launches c;
      controller.notes :=
        controller.notes c ++
        map (fun _ => "Failed to sync informer cache")
            (filter (fun entry => negb (snd entry)) syncMap) |}).
Proof. unfold controller.verifyCacheSync. now rewrite verifyCacheSync_fold. Qed.

Lemma forallb_Permutation {A} (f : A -> bool) l l' :
  Permutation l l' -> forallb f l = forallb f l'.
Proof.
  induction 1; cbn; try congruence.
  now destruct (f x), (f y).
Qed.

(** X24. [verifyCacheSync] answers true exactly when every informer of the
    map has synced, in whatever order the map is visited; it logs one warning
    per informer that has not, and changes nothing else. *)
Theorem verifyCacheSync_all_or_nothing
    (factoryName : string) (syncMap visited : list (string * bool))
    (c : controller.Controller) :
  let answer := controller.verifyCacheSync factoryName syncMap c in
  Permutation syncMap visited ->
  (fst answer = true <-> forall entry, In entry syncMap -> snd entry = true) /\
  fst (controller.verifyCacheSync factoryName visited c) = fst answer /\
  List.length (controller.notes (snd answer)) =
    (List.length (controller.notes c) +
     List.length (filter (fun entry => negb (snd entry)) syncMap))%nat /\
  controller.stopCh (snd answer) = controller.stopCh c /\
  controller.launches (snd answer) = controller.launches c.
Proof.
  intros answer P. subst answer. rewrite !verifyCacheSync_spec. cbn [fst snd].
  split; [apply forallb_forall|]. split; [symmetry; now apply forallb_Permutation|].
  cbn. rewrite length_app, length_map. repeat split.
Qed.

(** X26. [startInformers] makes a fresh stop channel and starts both
    factories, the kube one first, also when the first fails to sync; it
    answers true exactly when every informer of both has synced.
    [onStartedLeading] registers the handlers before that and starts the
    worker after it in every case, synced or not. *)
Theorem informers_and_worker_are_always_started
    (kubeSyncMap evictionRequestSyncMap : list (string * bool))
    (c : controller.Controller) :
  let answer := controller.startInformers kubeSyncMap evictionRequestSyncMap c in
  let leading := controller.onStartedLeading kubeSyncMap evictionRequestSyncMap c in
  fst answer = forallb snd kubeSyncMap && forallb snd evictionRequestSyncMap /\
  controller.stopCh (snd answer) = controller.OpenChan /\
  controller.launches (snd answer) =
    controller.launches c ++
    [controller.InformersStarted "kube"; controller.InformersStarted "eviction-request"] /\
  controller.stopCh leading = controller.OpenChan /\
  controller.launches leading =
    controller.launches c ++
    [controller.HandlersRegistered; controller.InformersStarted "kube";
     controller.InformersStarted "eviction-request"; controller.WorkerStarted].
Proof.
  cbn zeta. unfold controller.onStartedLeading, controller.setupEventHandlers,
    controller.startInformers.
  rewrite !verifyCacheSync_spec.
  destruct (forallb snd kubeSyncMap); cbn [negb]; rewrite !verifyCacheSync_spec;
    destruct (forallb snd evictionRequestSyncMap); cbn; rewrite <- ?app_assoc;
    repeat split.
Qed.

Lemma onStartedLeading_opens kubeSyncMap evictionRequestSyncMap c :
  controller.stopCh (controller.onStartedLeading kubeSyncMap evictionRequestSyncMap c) =
  controller.OpenChan.
Proof.
  unfold controller.onStartedLeading, controller.setupEventHandlers,
    controller.startInformers.
  rewrite !verifyCacheSync_spec.
  destruct (forallb snd kubeSyncMap); cbn [negb]; rewrite !verifyCacheSync_spec;
    destruct (forallb snd evictionRequestSyncMap); reflexivity.
Qed.

(** X25. Losing the lead never panics: whatever sequence of started and
    stopped edges the election reports, also two stops in a row or a stop
    before any start, [onStoppedLeading] never closes a channel that is nil
    or already closed.  After a stop the channel is not open, and a stop
    leaves the launches as they are. *)
Theorem stopping_never_closes_twice (edges : list Edge) (c : controller.Controller) :
  (exists c', lead edges c = Some c') /\
  (exists c', controller.onStoppedLeading c = Some c' /\
              controller.stopCh c' <> controller.OpenChan /\
              controller.launches c' = controller.launches c /\
              exists c'', controller.onStoppedLeading c' = Some c'' /\
                          controller.stopCh c'' = controller.stopCh c').
Proof.
  split.
  - revert c. induction edges as [|[k e|] rest IH]; intros c; cbn [lead].
    + now exists c.
    + apply IH.
    + unfold controller.onStoppedLeading. cbn.
      destruct (controller.stopCh c); cbn; apply IH.
  - destruct c as [[| |] l n]; unfold controller.onStoppedLeading; cbn;
      eexists; (split; [reflexivity|]); cbn;
      (split; [discriminate|]); (split; [reflexivity|]);
      eexists; split; reflexivity.
Qed.

(** ** The further properties at work on the scenarios *)

(** "a" and "b" listed either way round come out as "b", "a". *)
Lemma candidate_order_ignores_listing_order_witness :
  interceptor.sortInterceptorsByPriority [Scenario.interceptorB; Scenario.interceptorA] =
  interceptor.sortInterceptorsByPriority [Scenario.interceptorA; Scenario.interceptorB].
Proof.
  refine (proj1 (candidate_order_ignores_listing_order
                   [Scenario.interceptorA; Scenario.interceptorB]
                   [Scenario.interceptorB; Scenario.interceptorA] _ _)).
  - repeat constructor; cbn; intuition discriminate.
  - apply perm_swap.
Defined.

(** A request left with the class "zz" that none of its interceptors has. *)
Lemma unknown_active_class_ends_the_chain_witness :
  let w := Scenario.world
             (Scenario.request [Scenario.interceptorA; Scenario.interceptorB]
                (Scenario.owned "zz" true None)) in
  let i := Scenario.clients None None 1000 in
  result (interceptor.Handle i w) = result (eviction.Perform i w) /\
  evictCalls (finalWorld (interceptor.Handle i w)) =
    evictCalls (finalWorld (eviction.Perform i w)).
Proof.
  cbn zeta.
  destruct (unknown_active_class_ends_the_chain (Scenario.clients None None 1000)
              (Scenario.world
                 (Scenario.request [Scenario.interceptorA; Scenario.interceptorB]
                    (Scenario.owned "zz" true None)))
              "zz")
    as (_ & Hr & _ & Hv).
  - reflexivity.
  - discriminate.
  - reflexivity.
  - cbn. intuition discriminate.
  - split; [exact Hr|exact Hv].
Defined.

(** "b" owns the request and has never reported; two reconciliations, the
    second eleven days later. *)
Lemma silent_interceptor_is_never_timed_out_witness :
  let w := Scenario.world
             (Scenario.request [Scenario.interceptorA; Scenario.interceptorB]
                (Scenario.owned "b" false None)) in
  let rs := [Scenario.clients None None 1000;
             Scenario.clients None None (1000000 * time.Second)] in
  ActiveInterceptorCompleted (Status (evictionRequest (run (map Reconciliation rs) w))) = false /\
  evictCalls (run (map Reconciliation rs) w) = [].
Proof.
  cbn zeta.
  destruct (silent_interceptor_is_never_timed_out
              [Scenario.clients None None 1000;
               Scenario.clients None None (1000000 * time.Second)]
              (Scenario.world
                 (Scenario.request [Scenario.interceptorA; Scenario.interceptorB]
                    (Scenario.owned "b" false None)))
              "b")
    as (_ & Hd & _ & _ & Hv).
  - discriminate.
  - reflexivity.
  - discriminate.
  - reflexivity.
  - reflexivity.
  - split; [exact Hd|exact Hv].
Defined.

Lemma pending_is_not_exhausted :
  ~ exhausted
      (Scenario.request [Scenario.interceptorA; Scenario.interceptorB]
         (Scenario.owned "b" false (Some 0))).
Proof. intros [H|(c & _ & _ & H & _)]; discriminate H. Defined.

(** "b" is past its deadline and the eviction would be blocked: nothing is
    evicted, "b" is marked completed. *)
Lemma no_eviction_before_the_chain_is_exhausted_witness :
  let w := Scenario.world
             (Scenario.request [Scenario.interceptorA; Scenario.interceptorB]
                (Scenario.owned "b" false (Some 0))) in
  let r := Scenario.clients (Some Scenario.blocked) None (2000 * time.Second) in
  evictCalls (finalWorld (reconciler.ReconcileEvictionRequest r w)) = [].
Proof.
  cbn zeta.
  exact (no_eviction_before_the_chain_is_exhausted
           (Scenario.clients (Some Scenario.blocked) None (2000 * time.Second))
           (Scenario.world
              (Scenario.request [Scenario.interceptorA; Scenario.interceptorB]
                 (Scenario.owned "b" false (Some 0))))
           pending_is_not_exhausted).
Defined.

(** The write that marks "b" completed meets a conflict. *)
Lemma Handle_returns_the_result_of_its_write_witness :
  let w := Scenario.world
             (Scenario.request [Scenario.interceptorA; Scenario.interceptorB]
                (Scenario.owned "b" false (Some 0))) in
  let i := Scenario.clients None (Some Scenario.conflict) (2000 * time.Second) in
  let o := interceptor.Handle i w in
  statusWrites (finalWorld o) = [evictionRequest (finalWorld o)] /\
  result o = Some (Some Scenario.conflict).
Proof.
  cbn zeta.
  destruct (Handle_returns_the_result_of_its_write
              (Scenario.clients None (Some Scenario.conflict) (2000 * time.Second))
              (Scenario.world
                 (Scenario.request [Scenario.interceptorA; Scenario.interceptorB]
                    (Scenario.owned "b" false (Some 0))))
              pending_is_not_exhausted)
    as [(_ & _ & H)|(Hw & Hr)].
  - exfalso. vm_compute in H. discriminate H.
  - split; [exact Hw|exact Hr].
Defined.

(** The pod of the request has gone from the namespace. *)
Lemma stale_target_is_skipped_witness :
  let w := Scenario.world Floor.goneRequest in
  let r := Scenario.clients None None 1000 in
  result (reconciler.ReconcileEvictionRequest r w) = Some None.
Proof.
  cbn zeta.
  destruct (stale_target_is_skipped (Scenario.clients None None 1000)
              (Scenario.world Floor.goneRequest) Floor.goneRef eq_refl)
    as (_ & H & _).
  exact (H eq_refl).
Defined.

(** Scenario D on a fresh request, with the store refusing the first write. *)
Lemma policy_is_defaulted_first_witness :
  let w := Scenario.world (Scenario.request [] Scenario.emptyStatus) in
  let r := Scenario.clients None (Some Scenario.conflict) 1000 in
  let o := reconciler.ReconcileEvictionRequest r w in
  result o = Some (Some Scenario.conflict) /\ evictCalls (finalWorld o) = [].
Proof.
  cbn zeta.
  destruct (policy_is_defaulted_first (Scenario.clients None (Some Scenario.conflict) 1000)
              (Scenario.world (Scenario.request [] Scenario.emptyStatus))
              {| Name := "web-0"; UID := "uid-1" |} Scenario.pod
              eq_refl eq_refl eq_refl eq_refl)
    as (_ & H).
  destruct (H Scenario.conflict eq_refl) as (Hr & _ & _ & Hv).
  split; [exact Hr|exact Hv].
Defined.


(** [Perform] on the request whose pod has gone. *)
Lemma Perform_without_target_witness :
  let w := Scenario.world Floor.goneRequest in
  let e := Scenario.clients None None 1000 in
  let o := eviction.Perform e w in
  evictionRequest (finalWorld o) = Floor.goneRequest /\ result o = Some None.
Proof.
  cbn zeta.
  destruct (Perform_without_target (Scenario.clients None None 1000)
              (Scenario.world Floor.goneRequest) Floor.goneRef eq_refl)
    as (He & _ & _ & Hr).
  - intros pod H. discriminate H.
  - split; [exact He|exact Hr].
Defined.

(** Scenario E under the pool: the blocked eviction sends the item back. *)
Lemma failed_reconciliation_is_requeued_witness :
  let p := Floor.pool (Some Scenario.blocked) None 1000 in
  let obj := worker.EvictionRequestObject (Scenario.request [] Scenario.defaulted) in
  let x := worker.processNextWorkItem p (Some obj) Floor.idle in
  answered x = Some true /\
  map isRequeue (worker.queueCalls (finalProcess x)) = [true; false] /\
  worker.handledErrors (finalProcess x) =
    [worker.SyncFailed "default/evict-web-0"
       (Errorf "failed to evict pod" Scenario.blocked)].
Proof.
  cbn zeta.
  destruct (failed_reconciliation_is_requeued
              (Floor.pool (Some Scenario.blocked) None 1000)
              (Scenario.request [] Scenario.defaulted)
              "default/evict-web-0" Floor.idle eq_refl)
    as (_ & _ & (Ha & Hq & Hh)).
  split; [exact Ha|]. split; [|exact Hh].
  rewrite Hq. reflexivity.
Defined.

(** A string among the items of the queue. *)
Lemma malformed_item_is_not_retried_witness :
  let p := Floor.pool None None 1000 in
  let obj := worker.OtherObject "string" in
  let x := worker.processNextWorkItem p (Some obj) Floor.idle in
  answered x = Some true /\
  worker.queueCalls (finalProcess x) = [worker.Forget obj; worker.Done obj].
Proof.
  cbn zeta.
  destruct (malformed_item_is_not_retried (Floor.pool None None 1000)
              (worker.OtherObject "string") Floor.idle I)
    as (Ha & Hq & _).
  split; [exact Ha|exact Hq].
Defined.

(** Two informers, one of which has not synced, visited either way round. *)
Lemma verifyCacheSync_all_or_nothing_witness :
  let c := {| controller.stopCh := controller.OpenChan; controller.launches := [];
              controller.notes := [] |} in
  fst (controller.verifyCacheSync "kube" [("Node", false); ("Pod", true)] c) =
  fst (controller.verifyCacheSync "kube" [("Pod", true); ("Node", false)] c).
Proof.
  cbn zeta.
  refine (proj1 (proj2 (verifyCacheSync_all_or_nothing "kube"
                          [("Pod", true); ("Node", false)]
                          [("Node", false); ("Pod", true)] _ _))).
  apply perm_swap.
Defined.
